(** * FinSight-AI front end: document-status synchronisation and
      risk-resolution workflow

    A shallow embedding of the client pages
      - [src/frontend/src/app/search/page.tsx]          (SearchPage)
      - [src/frontend/src/app/alerts/page.tsx]          (AlertsPage)
      - the documents listing page                      (DocumentsPage)
      - [src/frontend/src/app/documents/[id]/page.tsx]  (DocumentDetailPage)
    as event-driven state machines.  Every asynchronous handler is cut at
    its single [await]: the part before it runs when the user event (or the
    timer) fires and records the request in the network log; the part after
    it runs when the reply to that request arrives.

    Part I holds the model, Part II the properties. *)

From Stdlib Require Import ZArith NArith QArith List String Ascii Bool Lia.
From stdpp Require Import base option list gmap.

Local Open Scope Z_scope.

(* ===================================================================== *)
(** * Part I — the model                                                 *)
(* ===================================================================== *)

(** ** JavaScript strings and the built-ins the pages call *)

Module JS.

(** A JavaScript string is a sequence of UTF-16 code units. *)
Abbreviation jsstring := (list N).

(** A string literal of the source (all literals used are ASCII). *)
Definition lit (s : string) : jsstring :=
  List.map N_of_ascii (list_ascii_of_string s).

(** ToBoolean on a string: only the empty string is falsy. *)
Definition truthy (s : jsstring) : bool :=
  match s with
  | [] => false
  | _ :: _ => true
  end.

(** ToBoolean on [string | null]. *)
Definition truthy_opt (o : option jsstring) : bool :=
  match o with
  | None => false
  | Some s => truthy s
  end.

(** [WhiteSpace] and [LineTerminator] code points of ECMAScript, the ones
    [String.prototype.trim] strips. *)
Definition is_white_space (c : N) : bool :=
  ((c =? 0x09) || (c =? 0x0A) || (c =? 0x0B) || (c =? 0x0C) || (c =? 0x0D)
   || (c =? 0x20) || (c =? 0xA0) || (c =? 0x1680)
   || ((0x2000 <=? c) && (c <=? 0x200A))
   || (c =? 0x2028) || (c =? 0x2029) || (c =? 0x202F) || (c =? 0x205F)
   || (c =? 0x3000) || (c =? 0xFEFF))%N.

Fixpoint trimStart (s : jsstring) : jsstring :=
  match s with
  | [] => []
  | c :: s' => if is_white_space c then trimStart s' else s
  end.

Definition trimEnd (s : jsstring) : jsstring :=
  rev (trimStart (rev s)).

(** [s.trim()] *)
Definition trim (s : jsstring) : jsstring :=
  trimEnd (trimStart s).

(** [s.split(sep)] for a one-code-unit separator: the pieces between the
    occurrences of [sep]; never empty ([""] for the empty string). *)
Fixpoint split (sep : N) (s : jsstring) : list jsstring :=
  match s with
  | [] => [[]]
  | c :: s' =>
      if (c =? sep)%N then [] :: split sep s'
      else match split sep s' with
           | p :: ps => (c :: p) :: ps
           | [] => [[c]]
           end
  end.

(** [s.split(sep)[0]] *)
Definition split0 (sep : N) (s : jsstring) : jsstring :=
  match split sep s with
  | p :: _ => p
  | [] => []
  end.

(** The [w] low decimal digits of [n], most significant first. *)
Fixpoint pad (w : nat) (n : N) : jsstring :=
  match w with
  | O => []
  | S w' => pad w' (n / 10)%N ++ [(48 + n mod 10)%N]
  end.

(** A [Date], by the UTC fields [toISOString] prints. *)
Record Date := {
  utcFullYear : Z;
  utcMonth : N;        (* 0..11, as [getUTCMonth] *)
  utcDate : N;         (* 1..31 *)
  utcHours : N;
  utcMinutes : N;
  utcSeconds : N;
  utcMilliseconds : N
}.

(** The year of [Date.prototype.toISOString]: four digits for 0..9999,
    otherwise a sign and six digits. *)
Definition isoYear (y : Z) : jsstring :=
  if (0 <=? y) && (y <=? 9999) then pad 4 (Z.to_N y)
  else (if y <? 0 then lit "-" else lit "+") ++ pad 6 (Z.to_N (Z.abs y)).

(** [d.toISOString()]: YYYY-MM-DDTHH:mm:ss.sssZ *)
Definition toISOString (d : Date) : jsstring :=
  isoYear (utcFullYear d) ++ lit "-" ++ pad 2 (utcMonth d + 1)%N ++ lit "-"
  ++ pad 2 (utcDate d) ++ lit "T" ++ pad 2 (utcHours d) ++ lit ":"
  ++ pad 2 (utcMinutes d) ++ lit ":" ++ pad 2 (utcSeconds d) ++ lit "."
  ++ pad 3 (utcMilliseconds d) ++ lit "Z".

(** [Math.ceil(total / 20)] on an integer [total]. *)
Definition ceil_div20 (total : Z) : Z := (total + 19) / 20.

End JS.

Import JS.

(** ** What the remote document service answers

    [api-client] is not part of the reviewed sources; the pages only use
    the [message] of a thrown error.  The error kinds are the taxonomy of
    the specification. *)

Inductive ErrorKind :=
| ValidationError | ConflictError | NotFoundError | TransportError.

Record ApiError := { kind : ErrorKind; message : jsstring }.


(** Lifecycle status of a document. *)
Inductive Status := UPLOADED | PROCESSING | COMPLETED | FAILED.

#[global] Instance Status_eq_dec : EqDecision Status.
Proof. solve_decision. Defined.

(** ** The search page: [SearchPage], [handleSearch] *)

Module SearchPage.

Record SearchResult := {
  document_id : jsstring;
  document_filename : jsstring;
  document_type : jsstring;
  page_number : option Z;
  chunk_text : jsstring;
  similarity_score : Q
}.

(** What [apiClient.search] settles with. *)
Inductive Reply :=
| SearchOk (results : list SearchResult)
| SearchFailed (e : ApiError).

(** The four [useState] cells, and the network log: [sent] lists the
    query of every [apiClient.search] call in issue order, [answered] the
    positions already settled. *)
Record State := {
  query : jsstring;
  results : list SearchResult;
  loading : bool;
  searched : bool;
  sent : list jsstring;
  answered : gset nat
}.

Definition init : State :=
  {| query := []; results := []; loading := false; searched := false;
     sent := []; answered := ∅ |}.

Definition setQuery (q : jsstring) (st : State) : State :=
  {| query := q; results := results st; loading := loading st;
     searched := searched st; sent := sent st; answered := answered st |}.

(** [handleSearch] up to its [await]. *)
Definition handleSearch (st : State) : State :=
  if negb (truthy (trim (query st))) then st
  else {| query := query st; results := results st;
          loading := true; searched := true;
          sent := sent st ++ [query st]; answered := answered st |}.

(** [handleSearch] after its [await], for the call at position [k]. *)
Definition handleSearch_settled (k : nat) (r : Reply) (st : State)
  : option State :=
  match sent st !! k with
  | None => None
  | Some _ =>
      if decide (k ∈ answered st) then None
      else Some
        {| query := query st;
           results := match r with
                      | SearchOk rs => rs
                      | SearchFailed _ => results st
                      end;
           loading := false;
           searched := searched st;
           sent := sent st;
           answered := {[k]} ∪ answered st |}
  end.

Inductive Event :=
| TypeQuery (q : jsstring)
| Submit
| Settle (k : nat) (r : Reply).

Definition step (e : Event) (st : State) : option State :=
  match e with
  | TypeQuery q => Some (setQuery q st)
  | Submit => Some (handleSearch st)
  | Settle k r => handleSearch_settled k r st
  end.

Fixpoint run (es : list Event) (st : State) : option State :=
  match es with
  | [] => Some st
  | e :: es' =>
      match step e st with
      | Some st' => run es' st'
      | None => None
      end
  end.

Definition reachable (st : State) : Prop :=
  exists es, run es init = Some st.

(** The result cards the page renders, top to bottom: [results.map] under
    [searched && !loading]. *)
Definition displayed (st : State) : list SearchResult :=
  if searched st then (if loading st then [] else results st) else [].

(** Scores never increase down the list. *)
Fixpoint descending (rs : list SearchResult) : bool :=
  match rs with
  | [] => true
  | r :: rs' =>
      match rs' with
      | [] => true
      | r' :: _ => Qle_bool (similarity_score r') (similarity_score r)
      end && descending rs'
  end.

End SearchPage.

(** ** The alerts page: [AlertsPage], [loadAlerts], [handleResolve] *)

Module AlertsPage.

Record Alert := {
  id : jsstring;
  document_id : jsstring;
  document_filename : jsstring;
  risk_type : jsstring;
  risk_level : jsstring;
  description : jsstring;
  created_at : jsstring
}.

(** The calls the page makes on [apiClient]. *)
Inductive Call :=
| listAlerts (risk_level : option jsstring) (is_resolved : bool)
| resolveAlert (id notes : jsstring).

(** A call together with the [alerts] array its handler closed over. *)
Record Pending := { call : Call; closure_alerts : list Alert }.

Inductive Reply :=
| AlertsOk (alerts : list Alert)
| VoidOk
| Failed (e : ApiError).

Record State := {
  alerts : list Alert;
  loading : bool;
  error : jsstring;
  filter : jsstring;
  sent : list Pending;
  answered : gset nat
}.

Definition send (c : Call) (st : State) : State :=
  {| alerts := alerts st; loading := loading st; error := error st;
     filter := filter st;
     sent := sent st ++ [{| call := c; closure_alerts := alerts st |}];
     answered := answered st |}.

Definition setAlerts (al : list Alert) (st : State) : State :=
  {| alerts := al; loading := loading st; error := error st;
     filter := filter st; sent := sent st; answered := answered st |}.

Definition setLoading (b : bool) (st : State) : State :=
  {| alerts := alerts st; loading := b; error := error st;
     filter := filter st; sent := sent st; answered := answered st |}.

Definition setError (m : jsstring) (st : State) : State :=
  {| alerts := alerts st; loading := loading st; error := m;
     filter := filter st; sent := sent st; answered := answered st |}.

Definition setFilter (f : jsstring) (st : State) : State :=
  {| alerts := alerts st; loading := loading st; error := error st;
     filter := f; sent := sent st; answered := answered st |}.

Definition mark (k : nat) (st : State) : State :=
  {| alerts := alerts st; loading := loading st; error := error st;
     filter := filter st; sent := sent st;
     answered := {[k]} ∪ answered st |}.

(** [loadAlerts] up to its [await]. *)
Definition loadAlerts (st : State) : State :=
  let st := setLoading true st in
  send (listAlerts (if truthy (filter st) then Some (filter st) else None)
                   false) st.

(** The notes [handleResolve] passes. *)
Definition resolve_notes : jsstring := lit "Manually reviewed and resolved.".

(** [handleResolve(id)] up to its [await]. *)
Definition handleResolve (i : jsstring) (st : State) : State :=
  send (resolveAlert i resolve_notes) st.

(** The first render and the [useEffect] on [filter]. *)
Definition init : State :=
  loadAlerts {| alerts := []; loading := true; error := []; filter := [];
                sent := []; answered := ∅ |}.

Definition id_eqb (a b : jsstring) : bool :=
  if decide (a = b) then true else false.

(** The continuation of the call at position [k]. *)
Definition settled (k : nat) (r : Reply) (st : State) : option State :=
  match sent st !! k with
  | None => None
  | Some p =>
      if decide (k ∈ answered st) then None
      else
        match call p, r with
        | listAlerts _ _, AlertsOk al =>
            Some (setLoading false (setAlerts al (mark k st)))
        | listAlerts _ _, Failed e =>
            Some (setLoading false (setError (message e) (mark k st)))
        | resolveAlert i _, VoidOk =>
            Some (setAlerts
                    (List.filter (fun a => negb (id_eqb (id a) i))
                                 (closure_alerts p))
                    (mark k st))
        | resolveAlert _ _, Failed _ => Some (mark k st)
        | _, _ => None
        end
  end.

(** The two buttons of an alert card. *)
Inductive Button := Dismiss | Resolve.

Definition onClick (b : Button) (i : jsstring) : State -> State :=
  match b with
  | Dismiss => handleResolve i
  | Resolve => handleResolve i
  end.

(** The cards are rendered once loading is over. *)
Definition card_shown (i : jsstring) (st : State) : bool :=
  negb (loading st) && existsb (fun a => id_eqb (id a) i) (alerts st).

Inductive Event :=
| SelectFilter (f : jsstring)
| Click (b : Button) (i : jsstring)
| Settle (k : nat) (r : Reply).

Definition step (e : Event) (st : State) : option State :=
  match e with
  | SelectFilter f =>
      if decide (f = filter st) then Some st
      else Some (loadAlerts (setFilter f st))
  | Click b i => if card_shown i st then Some (onClick b i st) else None
  | Settle k r => settled k r st
  end.

Fixpoint run (es : list Event) (st : State) : option State :=
  match es with
  | [] => Some st
  | e :: es' =>
      match step e st with
      | Some st' => run es' st'
      | None => None
      end
  end.

Definition reachable (st : State) : Prop :=
  exists es, run es init = Some st.

(** The notes of every [resolveAlert] call in a log. *)
Definition notes_sent (l : list Pending) : list jsstring :=
  omap (fun p => match call p with
                 | resolveAlert _ n => Some n
                 | listAlerts _ _ => None
                 end) l.

(** Every [resolveAlert] call of the log carries [resolve_notes]. *)
Definition fixed_notes_only (st : State) : Prop :=
  Forall (fun n => n = resolve_notes) (notes_sent (sent st)).

End AlertsPage.

(** ** The documents listing page: [DocumentsPage], [loadDocuments] *)

Module DocumentsPage.

Record Document := {
  id : jsstring;
  original_filename : jsstring;
  status : Status;
  file_size : Z;
  created_at : jsstring
}.

(** [apiClient.listDocuments({ page, page_size, status })] *)
Record Call := {
  arg_page : Z;
  arg_page_size : Z;
  arg_status : option jsstring
}.

Inductive Reply :=
| ListOk (documents : list Document) (total : Z)
| Failed (e : ApiError).

Record State := {
  documents : list Document;
  loading : bool;
  error : jsstring;
  filter : jsstring;
  page : Z;
  total : Z;
  sent : list Call;
  answered : gset nat
}.

Definition setDocuments (ds : list Document) (st : State) : State :=
  {| documents := ds; loading := loading st; error := error st;
     filter := filter st; page := page st; total := total st;
     sent := sent st; answered := answered st |}.

Definition setLoading (b : bool) (st : State) : State :=
  {| documents := documents st; loading := b; error := error st;
     filter := filter st; page := page st; total := total st;
     sent := sent st; answered := answered st |}.

Definition setError (m : jsstring) (st : State) : State :=
  {| documents := documents st; loading := loading st; error := m;
     filter := filter st; page := page st; total := total st;
     sent := sent st; answered := answered st |}.

Definition setFilter (f : jsstring) (st : State) : State :=
  {| documents := documents st; loading := loading st; error := error st;
     filter := f; page := page st; total := total st;
     sent := sent st; answered := answered st |}.

(** [setPage(f)] with an updater function. *)
Definition setPage (f : Z -> Z) (st : State) : State :=
  {| documents := documents st; loading := loading st; error := error st;
     filter := filter st; page := f (page st); total := total st;
     sent := sent st; answered := answered st |}.

Definition setTotal (n : Z) (st : State) : State :=
  {| documents := documents st; loading := loading st; error := error st;
     filter := filter st; page := page st; total := n;
     sent := sent st; answered := answered st |}.

Definition send (c : Call) (st : State) : State :=
  {| documents := documents st; loading := loading st; error := error st;
     filter := filter st; page := page st; total := total st;
     sent := sent st ++ [c]; answered := answered st |}.

Definition mark (k : nat) (st : State) : State :=
  {| documents := documents st; loading := loading st; error := error st;
     filter := filter st; page := page st; total := total st;
     sent := sent st; answered := {[k]} ∪ answered st |}.

(** The fixed page size. *)
Definition pageSize : Z := 20.

(** [loadDocuments] up to its [await]. *)
Definition loadDocuments (st : State) : State :=
  let st := setLoading true st in
  send {| arg_page := page st; arg_page_size := pageSize;
          arg_status := if truthy (filter st) then Some (filter st)
                        else None |} st.

(** [loadDocuments] after its [await], for the call at position [k]. *)
Definition loadDocuments_settled (k : nat) (r : Reply) (st : State)
  : option State :=
  match sent st !! k with
  | None => None
  | Some _ =>
      if decide (k ∈ answered st) then None
      else Some
        (setLoading false
           match r with
           | ListOk ds n => setTotal n (setDocuments ds (mark k st))
           | Failed e => setError (message e) (mark k st)
           end)
  end.

(** The [useEffect] on [filter, page]: runs when either changed. *)
Definition effect (old st : State) : State :=
  if decide (filter old = filter st /\ page old = page st) then st
  else loadDocuments st.

(** The first render and the first run of the effect. *)
Definition init : State :=
  loadDocuments {| documents := []; loading := true; error := [];
                   filter := []; page := 1; total := 0;
                   sent := []; answered := ∅ |}.

(** The pagination bar: [documents.length > 0 && total > 20]. *)
Definition pagination_shown (st : State) : bool :=
  match documents st with
  | [] => false
  | _ :: _ => 20 <? total st
  end.

(** [disabled={page === 1}] *)
Definition prev_disabled (st : State) : bool := page st =? 1.

(** [disabled={page >= Math.ceil(total / 20)}] *)
Definition next_disabled (st : State) : bool :=
  ceil_div20 (total st) <=? page st.

(** The page count the indicator prints: [Math.ceil(total / 20)]. *)
Definition page_count (st : State) : Z := ceil_div20 (total st).

Inductive Event :=
| SelectFilter (f : jsstring)
| ClickPrev
| ClickNext
| Settle (k : nat) (r : Reply).

Definition step (e : Event) (st : State) : option State :=
  match e with
  | SelectFilter f => Some (effect st (setFilter f st))
  | ClickPrev =>
      if pagination_shown st && negb (prev_disabled st)
      then Some (effect st (setPage (fun p => Z.max 1 (p - 1)) st))
      else None
  | ClickNext =>
      if pagination_shown st && negb (next_disabled st)
      then Some (effect st (setPage (fun p => p + 1) st))
      else None
  | Settle k r => loadDocuments_settled k r st
  end.

Fixpoint run (es : list Event) (st : State) : option State :=
  match es with
  | [] => Some st
  | e :: es' =>
      match step e st with
      | Some st' => run es' st'
      | None => None
      end
  end.

Definition reachable (st : State) : Prop :=
  exists es, run es init = Some st.

End DocumentsPage.

(** ** The document detail page: [DocumentDetailPage] *)

Module DetailPage.

Record Extraction := {
  vendor_name : jsstring;
  confidence_score : Q
}.

Record RiskFlag := {
  rf_id : jsstring;
  risk_type : jsstring;
  risk_level : jsstring;
  description : jsstring;
  is_resolved : bool
}.

Record Validation := {
  check_name : jsstring;
  is_valid : bool
}.

Record DocumentDetail := {
  original_filename : jsstring;
  status : Status;
  file_size : Z;
  extractions : list Extraction;
  risk_flags : list RiskFlag;
  validations : list Validation
}.

(** An asynchronous handler suspended at its [await], with what it closed
    over: [loadDocument] awaits [getDocument(id)], [handleExportReport]
    awaits [getReport(id)] and keeps the [document] of the render it was
    clicked in, [handleRetry] awaits [retryDocument(id)], [handleDelete]
    awaits [deleteDocument(id)], [handleResolveAlert] awaits
    [resolveAlert(resolvingId, resolutionNotes)]. *)
Inductive Pending :=
| Await_loadDocument (showLoadingState : bool)
| Await_handleExportReport (doc : DocumentDetail)
| Await_handleRetry
| Await_handleDelete
| Await_handleResolveAlert (rid notes : jsstring).

(** What a call settles with.  A report is kept as the text
    [JSON.stringify(reportData, null, 2)] of the object received. *)
Inductive Reply :=
| DocumentOk (d : DocumentDetail)
| ReportOk (json : jsstring)
| VoidOk
| Failed (e : ApiError).

(** What the page does to the outside, in order. *)
Inductive Action :=
| SetDocument (d : DocumentDetail)
| SetError (m : jsstring)
| RouterPush (path : jsstring)
| Download (filename content : jsstring).

(** The [useState] cells. *)
Record View := {
  document : option DocumentDetail;
  loading : bool;
  error : jsstring;
  retrying : bool;
  resolvingId : option jsstring;
  resolutionNotes : jsstring;
  isExporting : bool
}.

(** The component in its surroundings: the route parameter [id] (the same
    for the whole life of the component), the cells, whether the component is still mounted, the [pollingInterval]
    ref, the intervals the runtime has armed (handle ↦ period in ms), the
    next free handle, the network log ([sent] in issue order, [answered]
    with the reply each position got), and the actions so far. *)
Record World := {
  id : jsstring;
  view : View;
  mounted : bool;
  pollingInterval : option nat;
  timers : gmap nat Z;
  next_timer : nat;
  sent : list Pending;
  answered : gmap nat Reply;
  trace : list Action
}.

Definition with_view (v : View) (w : World) : World :=
  {| id := id w; view := v; mounted := mounted w;
     pollingInterval := pollingInterval w; timers := timers w;
     next_timer := next_timer w; sent := sent w; answered := answered w;
     trace := trace w |}.

Definition with_mounted (b : bool) (w : World) : World :=
  {| id := id w; view := view w; mounted := b;
     pollingInterval := pollingInterval w; timers := timers w;
     next_timer := next_timer w; sent := sent w; answered := answered w;
     trace := trace w |}.

Definition with_ref (r : option nat) (w : World) : World :=
  {| id := id w; view := view w; mounted := mounted w;
     pollingInterval := r; timers := timers w;
     next_timer := next_timer w; sent := sent w; answered := answered w;
     trace := trace w |}.

Definition with_timers (t : gmap nat Z) (n : nat) (w : World) : World :=
  {| id := id w; view := view w; mounted := mounted w;
     pollingInterval := pollingInterval w; timers := t;
     next_timer := n; sent := sent w; answered := answered w;
     trace := trace w |}.

Definition send (p : Pending) (w : World) : World :=
  {| id := id w; view := view w; mounted := mounted w;
     pollingInterval := pollingInterval w; timers := timers w;
     next_timer := next_timer w; sent := sent w ++ [p];
     answered := answered w; trace := trace w |}.

Definition mark (k : nat) (r : Reply) (w : World) : World :=
  {| id := id w; view := view w; mounted := mounted w;
     pollingInterval := pollingInterval w; timers := timers w;
     next_timer := next_timer w; sent := sent w;
     answered := <[k := r]> (answered w); trace := trace w |}.

Definition log (a : Action) (w : World) : World :=
  {| id := id w; view := view w; mounted := mounted w;
     pollingInterval := pollingInterval w; timers := timers w;
     next_timer := next_timer w; sent := sent w; answered := answered w;
     trace := trace w ++ [a] |}.

(** A state setter: React drops the update once the component is
    unmounted. *)
Definition update (f : View -> View) (w : World) : World :=
  if mounted w then with_view (f (view w)) w else w.

Definition setDocument (d : DocumentDetail) (w : World) : World :=
  log (SetDocument d)
    (update (fun v =>
       {| document := Some d; loading := loading v; error := error v;
          retrying := retrying v; resolvingId := resolvingId v;
          resolutionNotes := resolutionNotes v;
          isExporting := isExporting v |}) w).

Definition setLoading (b : bool) : World -> World :=
  update (fun v =>
    {| document := document v; loading := b; error := error v;
       retrying := retrying v; resolvingId := resolvingId v;
       resolutionNotes := resolutionNotes v;
       isExporting := isExporting v |}).

Definition setError (m : jsstring) (w : World) : World :=
  log (SetError m)
    (update (fun v =>
       {| document := document v; loading := loading v; error := m;
          retrying := retrying v; resolvingId := resolvingId v;
          resolutionNotes := resolutionNotes v;
          isExporting := isExporting v |}) w).

Definition setRetrying (b : bool) : World -> World :=
  update (fun v =>
    {| document := document v; loading := loading v; error := error v;
       retrying := b; resolvingId := resolvingId v;
       resolutionNotes := resolutionNotes v;
       isExporting := isExporting v |}).

Definition setResolvingId (r : option jsstring) : World -> World :=
  update (fun v =>
    {| document := document v; loading := loading v; error := error v;
       retrying := retrying v; resolvingId := r;
       resolutionNotes := resolutionNotes v;
       isExporting := isExporting v |}).

Definition setResolutionNotes (s : jsstring) : World -> World :=
  update (fun v =>
    {| document := document v; loading := loading v; error := error v;
       retrying := retrying v; resolvingId := resolvingId v;
       resolutionNotes := s; isExporting := isExporting v |}).

Definition setIsExporting (b : bool) : World -> World :=
  update (fun v =>
    {| document := document v; loading := loading v; error := error v;
       retrying := retrying v; resolvingId := resolvingId v;
       resolutionNotes := resolutionNotes v; isExporting := b |}).

(** The polling period: [setInterval(..., 3000)]. *)
Definition poll_ms : Z := 3000.

(** [clearInterval(t)] *)
Definition clearInterval (t : nat) (w : World) : World :=
  with_timers (delete t (timers w)) (next_timer w) w.

(** [pollingInterval.current = setInterval(() => loadDocument(false), 3000)] *)
Definition arm (w : World) : World :=
  let t := next_timer w in
  with_ref (Some t) (with_timers (<[t := poll_ms]> (timers w)) (S t) w).

(** [document?.status] *)
Definition status_of (w : World) : option Status :=
  match document (view w) with
  | Some d => Some (status d)
  | None => None
  end.

(** [loadDocument(showLoadingState)] up to its [await]. *)
Definition loadDocument (showLoadingState : bool) (w : World) : World :=
  send (Await_loadDocument showLoadingState)
       (if showLoadingState then setLoading true w else w).

(** [loadDocument] after its [await]. *)
Definition loadDocument_settled (showLoadingState : bool) (r : Reply)
  (w : World) : option World :=
  let finally w := if showLoadingState then setLoading false w else w in
  match r with
  | DocumentOk data => Some (finally (setDocument data w))
  | Failed err =>
      let w := setError (message err) w in
      let w := match pollingInterval w with
               | Some t => clearInterval t w
               | None => w
               end in
      Some (finally w)
  | _ => None
  end.

(** The download name built by [handleExportReport]. *)
Definition export_filename (d : DocumentDetail) (now : Date) : jsstring :=
  lit "Audit-Report-" ++ split0 46%N (original_filename d) ++ lit "-"
  ++ split0 84%N (toISOString now) ++ lit ".json".

(** [handleExportReport] up to its [await]. *)
Definition handleExportReport (w : World) : World :=
  match document (view w) with
  | None => w
  | Some d => send (Await_handleExportReport d) (setIsExporting true w)
  end.

(** [handleExportReport] after its [await]; [now] is [new Date()]. *)
Definition handleExportReport_settled (d : DocumentDetail) (now : Date)
  (r : Reply) (w : World) : option World :=
  match r with
  | ReportOk json =>
      Some (setIsExporting false (log (Download (export_filename d now) json) w))
  | Failed err =>
      Some (setIsExporting false
              (setError (lit "Failed to generate audit report: "
                         ++ message err) w))
  | _ => None
  end.

(** [handleResolveAlert] up to its [await]. *)
Definition handleResolveAlert (w : World) : World :=
  if negb (truthy_opt (resolvingId (view w)))
     || negb (truthy (trim (resolutionNotes (view w))))
  then w
  else match resolvingId (view w) with
       | Some rid =>
           send (Await_handleResolveAlert rid (resolutionNotes (view w))) w
       | None => w
       end.

(** [handleResolveAlert] after its [await]. *)
Definition handleResolveAlert_settled (r : Reply) (w : World)
  : option World :=
  match r with
  | VoidOk =>
      Some (loadDocument false
              (setResolutionNotes [] (setResolvingId None w)))
  | Failed err =>
      Some (setError (lit "Failed to resolve alert: " ++ message err) w)
  | _ => None
  end.

(** [handleRetry] up to its [await]. *)
Definition handleRetry (w : World) : World :=
  send Await_handleRetry (setRetrying true w).

(** [handleRetry] after its [await]. *)
Definition handleRetry_settled (r : Reply) (w : World) : option World :=
  match r with
  | VoidOk => Some (setRetrying false (loadDocument true w))
  | Failed err => Some (setRetrying false (setError (message err) w))
  | _ => None
  end.

(** [handleDelete] up to its [await]; [confirmed] is what [confirm(...)]
    returned. *)
Definition handleDelete (confirmed : bool) (w : World) : World :=
  if negb confirmed then w else send Await_handleDelete w.

(** [handleDelete] after its [await]. *)
Definition handleDelete_settled (r : Reply) (w : World) : option World :=
  match r with
  | VoidOk => Some (log (RouterPush (lit "/documents")) w)
  | Failed err => Some (setError (message err) w)
  | _ => None
  end.

(** The body of the polling [useEffect]. *)
Definition pollingEffect (w : World) : World :=
  match status_of w with
  | Some PROCESSING | Some UPLOADED =>
      match pollingInterval w with
      | None => arm w
      | Some _ => w
      end
  | _ =>
      match pollingInterval w with
      | Some t => with_ref None (clearInterval t w)
      | None => w
      end
  end.

(** The render after a handler ran: the polling effect has
    [document?.status] as its only dependency, so it runs when that value
    differs from the one of the previous render, and only while the
    component is mounted. *)
Definition commit (old w : World) : World :=
  if mounted w && (if decide (status_of old = status_of w) then false else true)
  then pollingEffect w
  else w.

(** The body of the first [useEffect]. *)
Definition mountEffect (w : World) : World :=
  if truthy (id w) then loadDocument true w else w.

(** Its cleanup, and the unmount. *)
Definition unmount (w : World) : World :=
  with_mounted false
    match pollingInterval w with
    | Some t => clearInterval t w
    | None => w
    end.

(** The initial values of the cells and of the ref; interval handles are
    positive. *)
Definition blank (i : jsstring) : World :=
  {| id := i;
     view := {| document := None; loading := true; error := [];
                retrying := false; resolvingId := None;
                resolutionNotes := []; isExporting := false |};
     mounted := true; pollingInterval := None; timers := ∅;
     next_timer := 1; sent := []; answered := ∅; trace := [] |}.

(** The page after its first render: both effects have run, in the order
    they are declared. *)
Definition init (i : jsstring) : World :=
  pollingEffect (mountEffect (blank i)).

(** The page body (with its buttons) is rendered when the component is
    mounted, not loading, has no error and has a document. *)
Definition body_shown (w : World) : bool :=
  mounted w && negb (loading (view w)) && negb (truthy (error (view w)))
  && match document (view w) with Some _ => true | None => false end.

(** The resolve dialog is part of the body, under [resolvingId &&]. *)
Definition dialog_shown (w : World) : bool :=
  body_shown w && truthy_opt (resolvingId (view w)).

(** [disabled={!resolutionNotes.trim()}] on the confirm button. *)
Definition confirm_disabled (w : World) : bool :=
  negb (truthy (trim (resolutionNotes (view w)))).

Definition jsstring_eqb (a b : jsstring) : bool :=
  if decide (a = b) then true else false.

(** The flag [rid] has a Resolve button: it is listed and unresolved. *)
Definition resolve_button_shown (rid : jsstring) (w : World) : bool :=
  body_shown w &&
  match document (view w) with
  | Some d => existsb (fun f => jsstring_eqb (rf_id f) rid
                                && negb (is_resolved f)) (risk_flags d)
  | None => false
  end.

(** The Retry button is rendered for a FAILED document. *)
Definition retry_button_enabled (w : World) : bool :=
  body_shown w && negb (retrying (view w)) &&
  match status_of w with Some FAILED => true | _ => false end.

(** The continuation of the handler suspended at position [k]. *)
Definition settled (k : nat) (r : Reply) (now : Date) (w : World)
  : option World :=
  match sent w !! k, answered w !! k with
  | Some p, None =>
      let w1 := mark k r w in
      let next :=
        match p with
        | Await_loadDocument sl => loadDocument_settled sl r w1
        | Await_handleExportReport d => handleExportReport_settled d now r w1
        | Await_handleRetry => handleRetry_settled r w1
        | Await_handleDelete => handleDelete_settled r w1
        | Await_handleResolveAlert _ _ => handleResolveAlert_settled r w1
        end in
      match next with
      | Some w2 => Some (commit w w2)
      | None => None
      end
  | _, _ => None
  end.

Inductive Event :=
| Tick (t : nat)
| Settle (k : nat) (r : Reply) (now : Date)
| Unmount
| ClickRetry
| ClickDelete (confirmed : bool)
| ClickExport
| ClickResolveFlag (rid : jsstring)
| TypeNotes (s : jsstring)
| ClickCancel
| ClickConfirm.

Definition step (e : Event) (w : World) : option World :=
  match e with
  | Tick t =>
      match timers w !! t with
      | Some _ => Some (loadDocument false w)
      | None => None
      end
  | Settle k r now => settled k r now w
  | Unmount => if mounted w then Some (unmount w) else None
  | ClickRetry =>
      if retry_button_enabled w then Some (handleRetry w) else None
  | ClickDelete c =>
      if body_shown w then Some (handleDelete c w) else None
  | ClickExport =>
      if body_shown w && negb (isExporting (view w))
      then Some (handleExportReport w) else None
  | ClickResolveFlag rid =>
      if resolve_button_shown rid w
      then Some (setResolvingId (Some rid) w) else None
  | TypeNotes s =>
      if dialog_shown w then Some (setResolutionNotes s w) else None
  | ClickCancel =>
      if dialog_shown w
      then Some (setResolutionNotes [] (setResolvingId None w)) else None
  | ClickConfirm =>
      if dialog_shown w && negb (confirm_disabled w)
      then Some (handleResolveAlert w) else None
  end.

Fixpoint run (es : list Event) (w : World) : option World :=
  match es with
  | [] => Some w
  | e :: es' =>
      match step e w with
      | Some w' => run es' w'
      | None => None
      end
  end.

Definition reachable (w : World) : Prop :=
  exists i es, run es (init i) = Some w.

(** A document is in a non-terminal state. *)
Definition non_terminal (s : Status) : bool :=
  match s with
  | UPLOADED | PROCESSING => true
  | COMPLETED | FAILED => false
  end.

(** Some [getDocument] call of the log was answered with an error. *)
Fixpoint failed_from (k : nat) (l : list Pending) (ans : gmap nat Reply)
  : bool :=
  match l with
  | [] => false
  | p :: l' =>
      match p, ans !! k with
      | Await_loadDocument _, Some (Failed _) => true
      | _, _ => false
      end || failed_from (S k) l' ans
  end.

Definition fetch_failed (w : World) : bool :=
  failed_from 0 (sent w) (answered w).

(** The event is not the arrival of a document in a terminal state. *)
Definition non_terminal_result (e : Event) : bool :=
  match e with
  | Settle _ (DocumentOk d) _ => non_terminal (status d)
  | _ => true
  end.

(** *** Predicates used to state and prove the properties *)

(** [document?.status] is absent or terminal. *)
Definition idle_status (w : World) : bool :=
  match status_of w with
  | Some s => negb (non_terminal s)
  | None => true
  end.

(** Every armed interval is the one the ref holds and has the polling
    period; nothing is armed once unmounted; under an absent or terminal
    status the ref is null; and, while mounted with no failed fetch in the
    log, a non-terminal status has exactly one interval armed. *)
Definition Inv (w : World) : Prop :=
  (forall t p, timers w !! t = Some p ->
               pollingInterval w = Some t /\ p = poll_ms) /\
  (mounted w = false -> timers w = ∅) /\
  (idle_status w = true -> pollingInterval w = None) /\
  (mounted w = true -> fetch_failed w = false -> idle_status w = false ->
   exists t, pollingInterval w = Some t /\ timers w = {[t := poll_ms]}).

(** [frame w w']: the step from [w] to [w'] touched neither the timers,
    nor the ref, nor the mount flag, nor [document?.status], and did not
    turn a failed fetch into a clean log. *)
Definition frame (w w' : World) : Prop :=
  timers w' = timers w /\
  pollingInterval w' = pollingInterval w /\
  mounted w' = mounted w /\
  status_of w' = status_of w /\
  (fetch_failed w' = false -> fetch_failed w = false).

(** [frozen w w']: if the component is unmounted in [w], it still is in
    [w'] and its cells are the same. *)
Definition frozen (w w' : World) : Prop :=
  mounted w = false -> mounted w' = false /\ view w' = view w.

End DetailPage.

(** ** The export name in the words of the specification

    "Audit-Report-" + the original filename without its extension + "-" +
    the current date in ISO-8601 form + ".json". *)

Module ExportSpec.

(** On the reversed name: what is left of the last dot. *)
Fixpoint before_last_dot (r : jsstring) : option jsstring :=
  match r with
  | [] => None
  | c :: r' => if (c =? 46)%N then Some r' else before_last_dot r'
  end.

(** A filename without its extension: without its last dot and what
    follows it; unchanged when it has no dot. *)
Definition without_extension (name : jsstring) : jsstring :=
  match before_last_dot (rev name) with
  | Some r => rev r
  | None => name
  end.

(** The calendar date in ISO-8601 form: YYYY-MM-DD. *)
Definition iso_date (d : Date) : jsstring :=
  isoYear (utcFullYear d) ++ lit "-" ++ pad 2 (utcMonth d + 1)%N
  ++ lit "-" ++ pad 2 (utcDate d).

Definition spec_export_filename (name : jsstring) (now : Date) : jsstring :=
  lit "Audit-Report-" ++ without_extension name ++ lit "-"
  ++ iso_date now ++ lit ".json".

End ExportSpec.

(** ** Concrete scenarios used by the examples of Part II *)

Module Scenarios.

Definition blank_notes : jsstring := [0x20; 0x09; 0xA0; 0x0A]%N.

Definition noon : Date :=
  {| utcFullYear := 2026; utcMonth := 10; utcDate := 3; utcHours := 12;
     utcMinutes := 0; utcSeconds := 0; utcMilliseconds := 0 |}.

Definition not_found : ApiError :=
  {| kind := NotFoundError; message := lit "Document not found" |}.

Definition timeout : ApiError :=
  {| kind := TransportError; message := lit "Network timeout" |}.

(** *** Search *)

Definition hit (name : string) (score : Q) : SearchPage.SearchResult :=
  {| SearchPage.document_id := lit "d1";
     SearchPage.document_filename := lit name;
     SearchPage.document_type := lit "INVOICE";
     SearchPage.page_number := Some 1;
     SearchPage.chunk_text := lit "total net income";
     SearchPage.similarity_score := score |}.

Definition hits : list SearchPage.SearchResult :=
  [hit "q3.pdf" (9 # 10); hit "q2.pdf" (7 # 10); hit "q1.pdf" (7 # 10)].

Definition search_typed : list SearchPage.Event :=
  [SearchPage.TypeQuery (lit "total net income Q3")].

Definition search_submitted : list SearchPage.Event :=
  search_typed ++ [SearchPage.Submit].

Definition search_blank : list SearchPage.Event :=
  [SearchPage.TypeQuery blank_notes].

(** *** Alerts *)

Definition alert (i : string) : AlertsPage.Alert :=
  {| AlertsPage.id := lit i;
     AlertsPage.document_id := lit "d1";
     AlertsPage.document_filename := lit "q3.pdf";
     AlertsPage.risk_type := lit "DUPLICATE_INVOICE";
     AlertsPage.risk_level := lit "HIGH";
     AlertsPage.description := lit "Same invoice number seen twice";
     AlertsPage.created_at := lit "2026-11-03T12:00:00.000Z" |}.

Definition alerts_listed : list AlertsPage.Event :=
  [AlertsPage.Settle 0 (AlertsPage.AlertsOk [alert "a1"; alert "a2"])].

Definition alerts_resolved_twice : list AlertsPage.Event :=
  alerts_listed ++ [AlertsPage.Click AlertsPage.Dismiss (lit "a1");
                    AlertsPage.Click AlertsPage.Resolve (lit "a2")].

(** *** Documents listing *)

Definition listed (i : string) : DocumentsPage.Document :=
  {| DocumentsPage.id := lit i;
     DocumentsPage.original_filename := lit "q3.pdf";
     DocumentsPage.status := COMPLETED;
     DocumentsPage.file_size := 2048;
     DocumentsPage.created_at := lit "2026-11-03T12:00:00.000Z" |}.

(** 45 documents, the viewer goes to page 3; meanwhile 35 of them are
    deleted; going back one page yields page 2 of a 10-document store. *)
Definition shrinking_total : list DocumentsPage.Event :=
  [DocumentsPage.Settle 0 (DocumentsPage.ListOk (repeat (listed "a") 20) 45);
   DocumentsPage.ClickNext;
   DocumentsPage.Settle 1 (DocumentsPage.ListOk (repeat (listed "b") 20) 45);
   DocumentsPage.ClickNext;
   DocumentsPage.Settle 2 (DocumentsPage.ListOk (repeat (listed "c") 5) 45);
   DocumentsPage.ClickPrev;
   DocumentsPage.Settle 3 (DocumentsPage.ListOk [] 10)].

Definition first_page_listed : list DocumentsPage.Event :=
  [DocumentsPage.Settle 0 (DocumentsPage.ListOk (repeat (listed "a") 20) 45)].

End Scenarios.

(** *** Document detail *)

Module DetailScenarios.
Import DetailPage.

Definition route : jsstring := lit "doc-1".

Definition flag : RiskFlag :=
  {| rf_id := lit "rf1"; risk_type := lit "DUPLICATE_INVOICE";
     risk_level := lit "HIGH";
     description := lit "Same invoice number seen twice";
     is_resolved := false |}.

Definition doc (name : string) (s : Status) : DocumentDetail :=
  {| original_filename := lit name; status := s; file_size := 2048;
     extractions := [{| vendor_name := lit "ACME";
                        confidence_score := 9 # 10 |}];
     risk_flags := [flag];
     validations := [{| check_name := lit "totals"; is_valid := true |}] |}.

Definition noon := Scenarios.noon.

(** The first fetch shows a completed document. *)
Definition loaded : list Event :=
  [Settle 0 (DocumentOk (doc "Q3.report.pdf" COMPLETED)) noon].

(** Delete, confirmed; the service answers that the document is gone. *)
Definition delete_not_found : list Event :=
  loaded ++ [ClickDelete true; Settle 1 (Failed Scenarios.not_found) noon].

(** Delete, confirmed; the service succeeds. *)
Definition delete_ok : list Event :=
  loaded ++ [ClickDelete true; Settle 1 VoidOk noon].

(** Export of a document whose name has two dots. *)
Definition export_two_dots : list Event :=
  loaded ++ [ClickExport; Settle 1 (ReportOk (lit "{}")) noon].

(** The resolve dialog is open on flag rf1 with white space typed. *)
Definition dialog_blank : list Event :=
  loaded ++ [ClickResolveFlag (lit "rf1"); TypeNotes Scenarios.blank_notes].

(** The first fetch shows a document in processing: polling starts. *)
Definition polling : list Event :=
  [Settle 0 (DocumentOk (doc "q3.pdf" PROCESSING)) noon].

(** Two polls A (position 1) and B (position 2) are issued; B is answered
    first. *)
Definition result_A : DocumentDetail := doc "q3.pdf" PROCESSING.
Definition result_B : DocumentDetail := doc "q3.pdf" COMPLETED.

Definition two_polls : list Event :=
  polling ++ [Tick 1; Tick 1].

Definition out_of_order : list Event :=
  two_polls ++ [Settle 2 (DocumentOk result_B) noon;
                Settle 1 (DocumentOk result_A) noon].

(** Two polls are in flight; the first fails, the second succeeds with the
    document still in processing. *)
Definition poll_fails : list Event :=
  two_polls ++ [Settle 1 (Failed Scenarios.timeout) noon].

Definition poll_fails_then_succeeds : list Event :=
  poll_fails ++ [Settle 2 (DocumentOk (doc "q3.pdf" PROCESSING)) noon].

(** The observer leaves while a poll is in flight. *)
Definition left_while_polling : list Event :=
  polling ++ [Tick 1; Unmount].

Definition late_result : DocumentDetail := doc "q3.pdf" COMPLETED.

(** Three polls in flight; the first fails, the second reports COMPLETED,
    the third (answered from an older snapshot) reports PROCESSING. *)
Definition three_polls_first_fails : list Event :=
  polling ++ [Tick 1; Tick 1; Tick 1;
              Settle 1 (Failed Scenarios.timeout) noon].

Definition later_results : list Event :=
  [Settle 2 (DocumentOk (doc "q3.pdf" COMPLETED)) noon;
   Settle 3 (DocumentOk (doc "q3.pdf" PROCESSING)) noon].

Definition later_results_processing : list Event :=
  [Settle 2 (DocumentOk (doc "q3.pdf" UPLOADED)) noon;
   Settle 3 (DocumentOk (doc "q3.pdf" PROCESSING)) noon].

End DetailScenarios.

(** ** Further string built-ins used when rendering *)

Module JSText.


(** [s.replace(/pat/g, rep)]: every occurrence. *)
Definition replace_all (pat rep : N) (s : jsstring) : jsstring :=
  List.map (fun c => if (c =? pat)%N then rep else c) s.

(** [s.startsWith(p)] *)
Fixpoint starts_with (p s : jsstring) : bool :=
  match p, s with
  | [], _ => true
  | _ :: _, [] => false
  | a :: p', b :: s' => (a =? b)%N && starts_with p' s'
  end.

(** [s.includes(sub)] *)
Fixpoint includes (sub s : jsstring) : bool :=
  starts_with sub s ||
  match s with
  | [] => false
  | _ :: s' => includes sub s'
  end.

(** How often a code unit occurs. *)
Fixpoint occurrences (c : N) (s : jsstring) : nat :=
  match s with
  | [] => O
  | d :: s' => ((if (d =? c)%N then 1 else 0) + occurrences c s')%nat
  end.

End JSText.

Import JSText.

(** ** The audit trail page: [ActivityPage], [loadLogs], [getActionIcon] *)

Module ActivityPage.

Record AuditLog := {
  id : jsstring;
  action : jsstring;
  description : jsstring;
  document_id : option jsstring;
  created_at : jsstring
}.

(** [apiClient.listAuditLogs({ page, page_size })] *)
Record Call := { arg_page : Z; arg_page_size : Z }.

Inductive Reply :=
| LogsOk (logs : list AuditLog) (total : Z)
| Failed (e : ApiError).

Record State := {
  logs : list AuditLog;
  loading : bool;
  total : Z;
  page : Z;
  sent : list Call;
  answered : gset nat
}.

Definition setLogs (l : list AuditLog) (st : State) : State :=
  {| logs := l; loading := loading st; total := total st; page := page st;
     sent := sent st; answered := answered st |}.

Definition setLoading (b : bool) (st : State) : State :=
  {| logs := logs st; loading := b; total := total st; page := page st;
     sent := sent st; answered := answered st |}.

Definition setTotal (n : Z) (st : State) : State :=
  {| logs := logs st; loading := loading st; total := n; page := page st;
     sent := sent st; answered := answered st |}.

Definition setPage (f : Z -> Z) (st : State) : State :=
  {| logs := logs st; loading := loading st; total := total st;
     page := f (page st); sent := sent st; answered := answered st |}.

Definition send (c : Call) (st : State) : State :=
  {| logs := logs st; loading := loading st; total := total st;
     page := page st; sent := sent st ++ [c]; answered := answered st |}.

Definition mark (k : nat) (st : State) : State :=
  {| logs := logs st; loading := loading st; total := total st;
     page := page st; sent := sent st; answered := {[k]} ∪ answered st |}.

(** [loadLogs] up to its [await]. *)
Definition loadLogs (st : State) : State :=
  let st := setLoading true st in
  send {| arg_page := page st; arg_page_size := 20 |} st.

(** [loadLogs] after its [await]: a failure is only written to the
    console. *)
Definition loadLogs_settled (k : nat) (r : Reply) (st : State)
  : option State :=
  match sent st !! k with
  | None => None
  | Some _ =>
      if decide (k ∈ answered st) then None
      else Some
        (setLoading false
           match r with
           | LogsOk l n => setTotal n (setLogs l (mark k st))
           | Failed _ => mark k st
           end)
  end.

(** The [useEffect] on [page]. *)
Definition effect (old st : State) : State :=
  if decide (page old = page st) then st else loadLogs st.

Definition init : State :=
  loadLogs {| logs := []; loading := true; total := 0; page := 1;
              sent := []; answered := ∅ |}.

(** The pagination bar sits in the branch rendered when not loading,
    under [total > 20]. *)
Definition pagination_shown (st : State) : bool :=
  negb (loading st) && (20 <? total st).

Definition prev_disabled (st : State) : bool := page st =? 1.

Definition next_disabled (st : State) : bool :=
  ceil_div20 (total st) <=? page st.

Inductive Event :=
| ClickPrev
| ClickNext
| Settle (k : nat) (r : Reply).

Definition step (e : Event) (st : State) : option State :=
  match e with
  | ClickPrev =>
      if pagination_shown st && negb (prev_disabled st)
      then Some (effect st (setPage (fun p => Z.max 1 (p - 1)) st))
      else None
  | ClickNext =>
      if pagination_shown st && negb (next_disabled st)
      then Some (effect st (setPage (fun p => p + 1) st))
      else None
  | Settle k r => loadLogs_settled k r st
  end.

Fixpoint run (es : list Event) (st : State) : option State :=
  match es with
  | [] => Some st
  | e :: es' =>
      match step e st with
      | Some st' => run es' st'
      | None => None
      end
  end.

Definition reachable (st : State) : Prop :=
  exists es, run es init = Some st.

(** The icons [getActionIcon] chooses from. *)
Inductive Icon :=
| FileText_blue
| CheckCircle2_green
| CheckCircle2_indigo
| AlertCircle_red
| Activity_muted.

(** [getActionIcon(action)] *)
Definition getActionIcon (action : jsstring) : Icon :=
  if includes (lit "UPLOAD") action then FileText_blue
  else if includes (lit "PROCESS_COMPLETE") action then CheckCircle2_green
  else if includes (lit "RESOLVE") action then CheckCircle2_indigo
  else if includes (lit "DELETE") action then AlertCircle_red
  else Activity_muted.

(** The action badge: [log.action.replace(/_/g, " ")]. *)
Definition action_label (action : jsstring) : jsstring :=
  replace_all 95%N 32%N action.

(** The calls answered so far are exactly the first [m] of the log. *)
Definition answered_upto (m : nat) (st : State) : Prop :=
  forall k, k ∈ answered st <-> (k < m)%nat.

(** One call at a time: the log ends with the call for the page shown,
    every earlier call is answered, and the last one is unanswered exactly
    while the spinner is shown. *)
Definition Inv (st : State) : Prop :=
  1 <= page st /\
  exists l c,
    sent st = l ++ [c] /\
    arg_page c = page st /\ arg_page_size c = 20 /\
    answered_upto (if loading st then length l else S (length l)) st.

End ActivityPage.

(** ** The upload page: [UploadPage], [handleDrop], [handleFileSelect],
       [handleUpload] *)

Module UploadPage.

(** A [File], by what the page reads of it and what an upload filter
    would look at. *)
Record File := {
  name : jsstring;
  size : Z;
  mime : jsstring
}.

(** What [apiClient.uploadDocument] settles with: the [id] of the created
    document, or an error. *)
Inductive Reply :=
| UploadOk (document_id : jsstring)
| Failed (e : ApiError).

(** The cells; the network log ([sent]: the file of every
    [uploadDocument] call, [answered]: the reply each position got); the
    redirects armed with [setTimeout] and not fired yet, by their target;
    the [router.push] calls made. *)
Record State := {
  file : option File;
  uploading : bool;
  success : bool;
  error : jsstring;
  isDragging : bool;
  sent : list File;
  answered : gmap nat Reply;
  scheduled : list jsstring;
  pushed : list jsstring
}.

Definition setFile (f : option File) (st : State) : State :=
  {| file := f; uploading := uploading st; success := success st;
     error := error st; isDragging := isDragging st; sent := sent st;
     answered := answered st; scheduled := scheduled st;
     pushed := pushed st |}.

Definition setUploading (b : bool) (st : State) : State :=
  {| file := file st; uploading := b; success := success st;
     error := error st; isDragging := isDragging st; sent := sent st;
     answered := answered st; scheduled := scheduled st;
     pushed := pushed st |}.

Definition setSuccess (b : bool) (st : State) : State :=
  {| file := file st; uploading := uploading st; success := b;
     error := error st; isDragging := isDragging st; sent := sent st;
     answered := answered st; scheduled := scheduled st;
     pushed := pushed st |}.

Definition setError (m : jsstring) (st : State) : State :=
  {| file := file st; uploading := uploading st; success := success st;
     error := m; isDragging := isDragging st; sent := sent st;
     answered := answered st; scheduled := scheduled st;
     pushed := pushed st |}.

Definition setIsDragging (b : bool) (st : State) : State :=
  {| file := file st; uploading := uploading st; success := success st;
     error := error st; isDragging := b; sent := sent st;
     answered := answered st; scheduled := scheduled st;
     pushed := pushed st |}.

Definition send (f : File) (st : State) : State :=
  {| file := file st; uploading := uploading st; success := success st;
     error := error st; isDragging := isDragging st;
     sent := sent st ++ [f]; answered := answered st;
     scheduled := scheduled st; pushed := pushed st |}.

Definition mark (k : nat) (r : Reply) (st : State) : State :=
  {| file := file st; uploading := uploading st; success := success st;
     error := error st; isDragging := isDragging st; sent := sent st;
     answered := <[k := r]> (answered st); scheduled := scheduled st;
     pushed := pushed st |}.

(** [setTimeout(() => router.push(target), 1000)] *)
Definition setTimeout (target : jsstring) (st : State) : State :=
  {| file := file st; uploading := uploading st; success := success st;
     error := error st; isDragging := isDragging st; sent := sent st;
     answered := answered st; scheduled := scheduled st ++ [target];
     pushed := pushed st |}.

(** The [j]-th armed redirect fires: [router.push(target)]. *)
Definition fire (j : nat) (st : State) : option State :=
  match scheduled st !! j with
  | None => None
  | Some target =>
      Some {| file := file st; uploading := uploading st;
              success := success st; error := error st;
              isDragging := isDragging st; sent := sent st;
              answered := answered st;
              scheduled := delete j (scheduled st);
              pushed := pushed st ++ [target] |}
  end.

Definition init : State :=
  {| file := None; uploading := false; success := false; error := [];
     isDragging := false; sent := []; answered := ∅; scheduled := [];
     pushed := [] |}.

(** [handleDrop]: [files] is [e.dataTransfer.files]. *)
Definition handleDrop (files : list File) (st : State) : State :=
  let st := setIsDragging false st in
  match files with
  | droppedFile :: _ => setError [] (setFile (Some droppedFile) st)
  | [] => st
  end.

(** [handleFileSelect]: [files] is [e.target.files]. *)
Definition handleFileSelect (files : list File) (st : State) : State :=
  match files with
  | selectedFile :: _ => setError [] (setFile (Some selectedFile) st)
  | [] => st
  end.

(** [handleUpload] up to its [await]. *)
Definition handleUpload (st : State) : State :=
  match file st with
  | None => st
  | Some f => send f (setError [] (setUploading true st))
  end.

(** The target of the redirect: [`/documents/${document.id}`]. *)
Definition redirect_target (document_id : jsstring) : jsstring :=
  lit "/documents/" ++ document_id.

(** [handleUpload] after its [await], for the call at position [k]. *)
Definition handleUpload_settled (k : nat) (r : Reply) (st : State)
  : option State :=
  match sent st !! k, answered st !! k with
  | Some _, None =>
      let st := mark k r st in
      Some (setUploading false
              match r with
              | UploadOk i => setTimeout (redirect_target i)
                                         (setSuccess true st)
              | Failed e => setError (message e) st
              end)
  | _, _ => None
  end.

(** The drop zone is rendered while no file is selected, the file card
    otherwise. *)
Definition dropzone_shown (st : State) : bool :=
  match file st with None => true | Some _ => false end.

(** The X button of the file card: [disabled={uploading}]. *)
Definition remove_enabled (st : State) : bool :=
  negb (dropzone_shown st) && negb (uploading st).

(** The confirm button: [disabled={uploading || success}]. *)
Definition upload_enabled (st : State) : bool :=
  negb (dropzone_shown st) && negb (uploading st || success st).

Inductive Event :=
| DragOver
| DragLeave
| Drop (files : list File)
| Select (files : list File)
| Remove
| ClickUpload
| Settle (k : nat) (r : Reply)
| Fire (j : nat).

Definition step (e : Event) (st : State) : option State :=
  match e with
  | DragOver =>
      if dropzone_shown st then Some (setIsDragging true st) else None
  | DragLeave =>
      if dropzone_shown st then Some (setIsDragging false st) else None
  | Drop files =>
      if dropzone_shown st then Some (handleDrop files st) else None
  | Select files =>
      if dropzone_shown st then Some (handleFileSelect files st) else None
  | Remove => if remove_enabled st then Some (setFile None st) else None
  | ClickUpload =>
      if upload_enabled st then Some (handleUpload st) else None
  | Settle k r => handleUpload_settled k r st
  | Fire j => fire j st
  end.

Fixpoint run (es : list Event) (st : State) : option State :=
  match es with
  | [] => Some st
  | e :: es' =>
      match step e st with
      | Some st' => run es' st'
      | None => None
      end
  end.

Definition reachable (st : State) : Prop :=
  exists es, run es init = Some st.

(** The reply is a failure. *)
Definition is_failure (r : Reply) : bool :=
  match r with Failed _ => true | UploadOk _ => false end.

(** One upload at a time, one success per visit: the calls answered are
    all but the last while uploading and all otherwise; while uploading the
    file selected is the one sent last; before a success nothing is armed
    or pushed and every reply was a failure; after a success no upload is
    running and exactly one redirect, to the document created, is armed or
    has been pushed. *)
Definition Inv (st : State) : Prop :=
  (forall k, is_Some (answered st !! k) <->
             (k < (if uploading st then pred (length (sent st))
                   else length (sent st)))%nat) /\
  (uploading st = true ->
   exists f, file st = Some f /\ last (sent st) = Some f) /\
  (success st = false ->
   scheduled st = [] /\ pushed st = [] /\
   forall k r, answered st !! k = Some r -> is_failure r = true) /\
  (success st = true ->
   uploading st = false /\
   exists k i, answered st !! k = Some (UploadOk i) /\
               (scheduled st = [redirect_target i] /\ pushed st = [] \/
                scheduled st = [] /\ pushed st = [redirect_target i])).

End UploadPage.

(** ** The detail page: what is in flight, what is on screen *)

Module DetailMore.
Import DetailPage.

(** The event is a click or a keystroke of the user. *)
Definition is_click (e : Event) : bool :=
  match e with
  | Tick _ | Settle _ _ _ | Unmount => false
  | _ => true
  end.

Definition is_retry (p : Pending) : bool :=
  match p with Await_handleRetry => true | _ => false end.

Definition is_export (p : Pending) : bool :=
  match p with Await_handleExportReport _ => true | _ => false end.

Definition is_delete (p : Pending) : bool :=
  match p with Await_handleDelete => true | _ => false end.

(** A [loadDocument(true)], the one that shows the loading screen. *)
Definition is_visible_load (p : Pending) : bool :=
  match p with Await_loadDocument true => true | _ => false end.

(** How many of the suspended handlers selected by [P] have no reply
    yet, in the log from position [k] on. *)
Fixpoint pending_from (P : Pending -> bool) (k : nat) (l : list Pending)
  (ans : gmap nat Reply) : nat :=
  match l with
  | [] => O
  | p :: l' =>
      ((if P p && (if ans !! k is Some _ then false else true)
        then 1 else 0)
       + pending_from P (S k) l' ans)%nat
  end.

Definition unanswered (P : Pending -> bool) (w : World) : nat :=
  pending_from P 0 (sent w) (answered w).

(** The "Real-time Analysis in Progress" bar: part of the body, under
    [document.status === 'PROCESSING' || document.status === 'UPLOADED']. *)
Definition banner_shown (w : World) : bool :=
  body_shown w &&
  match status_of w with
  | Some s => non_terminal s
  | None => false
  end.

(** Replies come only for calls that were made; at most one
    [retryDocument] and at most one [getReport] are unanswered, and none
    while the button that starts them is enabled; the loading screen of a
    page with a route id is up only while a [loadDocument(true)] is
    unanswered. *)
Definition Guards (w : World) : Prop :=
  (forall k, is_Some (answered w !! k) -> (k < length (sent w))%nat) /\
  (unanswered is_retry w <= 1)%nat /\
  (mounted w = true -> retrying (view w) = false ->
   unanswered is_retry w = O) /\
  (unanswered is_export w <= 1)%nat /\
  (mounted w = true -> isExporting (view w) = false ->
   unanswered is_export w = O) /\
  (mounted w = true -> truthy (id w) = true -> loading (view w) = true ->
   (0 < unanswered is_visible_load w)%nat).

End DetailMore.

(** ** The document type shown on a card *)

Module Badges.


End Badges.

(* ===================================================================== *)
(** * Part II — properties                                               *)
(* ===================================================================== *)

(** ** Facts about the string built-ins *)

Section JSFacts.

Lemma trimStart_nil (s : jsstring) :
  trimStart s = [] <-> forallb is_white_space s = true.
Proof.
  induction s as [|c s IH]; simpl; [tauto|].
  destruct (is_white_space c); simpl; [exact IH|].
  split; discriminate.
Qed.

Lemma trimStart_keeps_rest (s : jsstring) :
  forallb is_white_space (trimStart s) = forallb is_white_space s.
Proof.
  induction s as [|c s IH]; simpl; [reflexivity|].
  destruct (is_white_space c) eqn:E; simpl; [exact IH|].
  rewrite E. reflexivity.
Qed.

Lemma forallb_rev {A} (f : A -> bool) (l : list A) :
  forallb f (rev l) = forallb f l.
Proof.
  induction l as [|a l IH]; simpl; [reflexivity|].
  rewrite forallb_app, IH. simpl. rewrite andb_true_r. apply andb_comm.
Qed.

(** [trim] yields the empty string exactly on strings made of white space
    only (the empty string included). *)
Lemma trim_nil (s : jsstring) :
  trim s = [] <-> forallb is_white_space s = true.
Proof.
  unfold trim, trimEnd.
  rewrite <- trimStart_keeps_rest, <- (forallb_rev _ (trimStart s)).
  rewrite <- trimStart_nil.
  split; intros H.
  - destruct (trimStart (rev (trimStart s))); [reflexivity|].
    simpl in H. destruct (rev l); discriminate.
  - rewrite H. reflexivity.
Qed.

Lemma blank_not_truthy (s : jsstring) :
  forallb is_white_space s = true -> truthy (trim s) = false.
Proof. intros H. apply trim_nil in H. rewrite H. reflexivity. Qed.

Lemma split_nonempty (sep : N) (s : jsstring) : split sep s <> [].
Proof.
  induction s as [|c s IH]; simpl; [discriminate|].
  destruct (c =? sep)%N; [discriminate|].
  destruct (split sep s); discriminate.
Qed.

End JSFacts.

(** ** The search page *)

Module SearchProps.
Import SearchPage.

Lemma step_sent_searched e st st' :
  step e st = Some st' ->
  (sent st <> [] -> searched st = true) ->
  sent st' <> [] -> searched st' = true.
Proof.
  destruct e as [q| |k r]; simpl; intros H Inv.
  - injection H as <-. exact Inv.
  - injection H as <-. unfold handleSearch.
    destruct (negb (truthy (trim (query st)))); [exact Inv|]. reflexivity.
  - unfold handleSearch_settled in H.
    destruct (sent st !! k); [|discriminate].
    destruct (decide (k ∈ answered st)); [discriminate|].
    injection H as <-. exact Inv.
Qed.

Lemma run_sent_searched es : forall st st',
  run es st = Some st' ->
  (sent st <> [] -> searched st = true) ->
  sent st' <> [] -> searched st' = true.
Proof.
  induction es as [|e es IH]; simpl; intros st st' H Inv.
  - injection H as <-. exact Inv.
  - destruct (step e st) as [st1|] eqn:E; [|discriminate].
    eapply IH; [exact H|]. eapply step_sent_searched; eassumption.
Qed.

(** While a search call is in the log, the results pane is open. *)
Lemma reachable_searched st :
  reachable st -> sent st <> [] -> searched st = true.
Proof.
  intros [es H]. eapply run_sent_searched; [exact H|].
  intros N. exfalso. apply N. reflexivity.
Qed.

(** C8. A submission whose query is empty or white space only leaves the
    page as it is and adds no call to the network log.  Any other
    submission issues one [search] call carrying the query; when a call
    succeeds, the cards displayed are the list the backend returned, item
    for item and in its order, so they descend by similarity score exactly
    when the backend's list does: the page sorts nothing. *)
Theorem search_rejects_blank_and_keeps_backend_order
  (st : State) (k : nat) (rs : list SearchResult) (st' : State) :
  reachable st ->
  (forallb is_white_space (query st) = true -> handleSearch st = st) /\
  (forallb is_white_space (query st) = false ->
     sent (handleSearch st) = sent st ++ [query st]) /\
  (handleSearch_settled k (SearchOk rs) st = Some st' ->
     displayed st' = rs /\ descending (displayed st') = descending rs).
Proof.
  intros R. split; [|split].
  - intros B. unfold handleSearch. rewrite (blank_not_truthy _ B). reflexivity.
  - intros B. unfold handleSearch.
    destruct (trim (query st)) as [|c t] eqn:T.
    + apply trim_nil in T. congruence.
    + reflexivity.
  - unfold handleSearch_settled.
    destruct (sent st !! k) as [q|] eqn:L; [|discriminate].
    destruct (decide (k ∈ answered st)); [discriminate|].
    intros H. injection H as <-.
    assert (S : searched st = true).
    { apply reachable_searched; [exact R|]. intros N. rewrite N in L.
      discriminate. }
    unfold displayed. simpl. rewrite S. split; reflexivity.
Qed.

Lemma search_rejects_blank_and_keeps_backend_order_witness :
  let blank := default init (run Scenarios.search_blank init) in
  let st := default init (run Scenarios.search_submitted init) in
  let st' := default init
               (handleSearch_settled 0 (SearchOk Scenarios.hits) st) in
  handleSearch blank = blank /\
  sent (handleSearch st) = sent st ++ [query st] /\
  displayed st' = Scenarios.hits /\
  descending (displayed st') = true.
Proof.
  intros blank st st'.
  destruct (search_rejects_blank_and_keeps_backend_order
              blank 0%nat [] blank) as (B1 & _).
  { exists Scenarios.search_blank. reflexivity. }
  destruct (search_rejects_blank_and_keeps_backend_order
              st 0%nat Scenarios.hits st') as (_ & H2 & H3).
  { exists Scenarios.search_submitted. reflexivity. }
  split; [apply B1; reflexivity|].
  split; [apply H2; reflexivity|].
  destruct H3 as [H3 H4]; [reflexivity|].
  split; [exact H3|]. rewrite H4. reflexivity.
Defined.

End SearchProps.

(** ** The alerts page *)

Module AlertsProps.
Import AlertsPage.

Lemma notes_sent_app l1 l2 :
  notes_sent (l1 ++ l2) = notes_sent l1 ++ notes_sent l2.
Proof. unfold notes_sent. apply omap_app. Qed.

Lemma loadAlerts_fixed st :
  fixed_notes_only st -> fixed_notes_only (loadAlerts st).
Proof.
  unfold fixed_notes_only, loadAlerts. simpl. intros H.
  rewrite notes_sent_app. apply Forall_app. split; [exact H|].
  simpl. constructor.
Qed.

Lemma handleResolve_fixed i st :
  fixed_notes_only st -> fixed_notes_only (handleResolve i st).
Proof.
  unfold fixed_notes_only, handleResolve. simpl. intros H.
  rewrite notes_sent_app. apply Forall_app. split; [exact H|].
  simpl. constructor; [reflexivity|constructor].
Qed.

Lemma step_fixed e st st' :
  step e st = Some st' -> fixed_notes_only st -> fixed_notes_only st'.
Proof.
  destruct e as [f|b i|k r]; simpl; intros H Inv.
  - destruct (decide (f = filter st)); injection H as <-; [exact Inv|].
    apply loadAlerts_fixed. exact Inv.
  - destruct (card_shown i st); [|discriminate]. injection H as <-.
    destruct b; apply handleResolve_fixed; exact Inv.
  - unfold settled in H.
    destruct (sent st !! k) as [p|]; [|discriminate].
    destruct (decide (k ∈ answered st)); [discriminate|].
    destruct (call p), r; try discriminate; injection H as <-; exact Inv.
Qed.

Lemma run_fixed es : forall st st',
  run es st = Some st' -> fixed_notes_only st -> fixed_notes_only st'.
Proof.
  induction es as [|e es IH]; simpl; intros st st' H Inv.
  - injection H as <-. exact Inv.
  - destruct (step e st) as [st1|] eqn:E; [|discriminate].
    eapply IH; [exact H|]. eapply step_fixed; eassumption.
Qed.

(** C9. On the alerts page both buttons of a card run [handleResolve],
    which issues [resolveAlert] with the notes "Manually reviewed and
    resolved."; every [resolveAlert] call the page has ever issued carries
    exactly these notes, and they are not empty after trimming. *)
Theorem alerts_resolve_sends_fixed_notes (st : State) (b : Button)
  (i : jsstring) :
  reachable st ->
  onClick b i st = handleResolve i st /\
  sent (onClick b i st)
    = sent st ++ [{| call := resolveAlert i resolve_notes;
                     closure_alerts := alerts st |}] /\
  Forall (fun n => n = resolve_notes) (notes_sent (sent st)) /\
  resolve_notes = lit "Manually reviewed and resolved." /\
  truthy (trim resolve_notes) = true.
Proof.
  intros [es R]. split; [|split; [|split; [|split]]].
  - destruct b; reflexivity.
  - destruct b; reflexivity.
  - eapply run_fixed; [exact R|]. unfold fixed_notes_only. simpl.
    constructor.
  - reflexivity.
  - reflexivity.
Qed.

Lemma alerts_resolve_sends_fixed_notes_witness :
  let st := default init (run Scenarios.alerts_resolved_twice init) in
  notes_sent (sent st) = [resolve_notes; resolve_notes] /\
  Forall (fun n => n = resolve_notes) (notes_sent (sent st)).
Proof.
  intros st. split; [reflexivity|].
  refine (proj1 (proj2 (proj2
    (alerts_resolve_sends_fixed_notes st Dismiss (lit "a1") _)))).
  exists Scenarios.alerts_resolved_twice. reflexivity.
Defined.

End AlertsProps.

(** ** The documents listing page *)

Module DocumentsProps.
Import DocumentsPage.

Lemma effect_page old st : page (effect old st) = page st.
Proof. unfold effect. destruct (decide _); reflexivity. Qed.

Lemma effect_total old st : total (effect old st) = total st.
Proof. unfold effect. destruct (decide _); reflexivity. Qed.

Lemma settled_page k r st st' :
  loadDocuments_settled k r st = Some st' -> page st' = page st.
Proof.
  unfold loadDocuments_settled.
  destruct (sent st !! k); [|discriminate].
  destruct (decide (k ∈ answered st)); [discriminate|].
  intros H. injection H as <-. destruct r; reflexivity.
Qed.

Lemma step_page_ge_1 e st st' :
  step e st = Some st' -> 1 <= page st -> 1 <= page st'.
Proof.
  destruct e as [f| | |k r]; simpl; intros H Inv.
  - injection H as <-. rewrite effect_page. exact Inv.
  - destruct (pagination_shown st && negb (prev_disabled st));
      [|discriminate].
    injection H as <-. rewrite effect_page. simpl. lia.
  - destruct (pagination_shown st && negb (next_disabled st));
      [|discriminate].
    injection H as <-. rewrite effect_page. simpl. lia.
  - rewrite (settled_page _ _ _ _ H). exact Inv.
Qed.

Lemma run_page_ge_1 es : forall st st',
  run es st = Some st' -> 1 <= page st -> 1 <= page st'.
Proof.
  induction es as [|e es IH]; simpl; intros st st' H Inv.
  - injection H as <-. exact Inv.
  - destruct (step e st) as [st1|] eqn:E; [|discriminate].
    eapply IH; [exact H|]. eapply step_page_ge_1; eassumption.
Qed.

(** C4, as the specification states it, fails: after the store shrank
    from 45 to 10 documents the page stays at 2 although the indicator now
    counts a single page. *)
Lemma page_not_clamped_when_total_shrinks :
  exists st, run Scenarios.shrinking_total init = Some st /\
             page st = 2 /\ total st = 10 /\ page_count st = 1 /\
             ~ (1 <= page st <= page_count st).
Proof.
  exists (default init (run Scenarios.shrinking_total init)).
  vm_compute. repeat split; try reflexivity.
  intros [_ H]. apply H. reflexivity.
Qed.

(** C4, amended. The page number never drops below 1; Previous and Next
    move it by one, and Next is offered only while [page] is below
    [ceil(total / 20)], so a click never takes it past the page count
    known at that moment.  A listing reply changes [total] but never
    [page]: no clamp is applied when [total] shrinks. *)
Theorem page_bounds_without_clamp (st : State) :
  reachable st ->
  1 <= page st /\
  pageSize = 20 /\
  (forall st', step ClickNext st = Some st' ->
     page st' = page st + 1 /\ page st' <= page_count st') /\
  (forall st', step ClickPrev st = Some st' ->
     page st' = Z.max 1 (page st - 1)) /\
  (forall k r st', step (Settle k r) st = Some st' -> page st' = page st) /\
  (forall k ds n st', step (Settle k (ListOk ds n)) st = Some st' ->
     total st' = n).
Proof.
  intros [es R].
  assert (P : 1 <= page st).
  { eapply run_page_ge_1; [exact R|]. simpl. lia. }
  split; [exact P|]. split; [reflexivity|]. split; [|split; [|split]].
  - simpl. intros st'.
    destruct (pagination_shown st); simpl; [|discriminate].
    unfold next_disabled.
    destruct (ceil_div20 (total st) <=? page st) eqn:E; simpl;
      [discriminate|].
    intros H. injection H as <-.
    rewrite effect_page. unfold page_count. rewrite effect_total. simpl.
    apply Z.leb_gt in E. lia.
  - simpl. intros st'.
    destruct (pagination_shown st && negb (prev_disabled st));
      [|discriminate].
    intros H. injection H as <-. rewrite effect_page. reflexivity.
  - simpl. intros k r st' H. eapply settled_page. exact H.
  - simpl. intros k ds n st'. unfold loadDocuments_settled.
    destruct (sent st !! k); [|discriminate].
    destruct (decide (k ∈ answered st)); [discriminate|].
    intros H. injection H as <-. reflexivity.
Qed.

Lemma page_bounds_without_clamp_witness :
  let st := default init (run Scenarios.first_page_listed init) in
  1 <= page st /\
  (forall st', step ClickNext st = Some st' ->
     page st' = page st + 1 /\ page st' <= page_count st').
Proof.
  intros st.
  destruct (page_bounds_without_clamp st) as (H1 & _ & H2 & _).
  - exists Scenarios.first_page_listed. reflexivity.
  - split; [exact H1 | exact H2].
Defined.

End DocumentsProps.

(** ** The document detail page *)

Module DetailProps.
Import DetailPage.

(** *** The network log *)

Lemma failed_from_app n l l' ans :
  failed_from n (l ++ l') ans
  = failed_from n l ans || failed_from (n + length l) l' ans.
Proof.
  revert n. induction l as [|p l IH]; intros n; simpl.
  - f_equal. lia.
  - rewrite IH, orb_assoc. do 2 f_equal. lia.
Qed.

Lemma failed_from_insert n l k r (ans : gmap nat Reply) :
  ans !! k = None ->
  failed_from n l (<[k := r]> ans) = false ->
  failed_from n l ans = false.
Proof.
  intros Hk. revert n. induction l as [|p l IH]; intros n; simpl;
    [reflexivity|].
  intros H. apply orb_false_iff in H as [H1 H2].
  rewrite (IH _ H2), orb_false_r.
  destruct (decide (k = n)) as [->|Hne].
  - rewrite Hk. destruct p; reflexivity.
  - rewrite lookup_insert_ne in H1 by exact Hne. exact H1.
Qed.

Lemma failed_from_hit n (l : list Pending) j sl e (ans : gmap nat Reply) :
  l !! j = Some (Await_loadDocument sl) ->
  failed_from n l (<[(n + j)%nat := Failed e]> ans) = true.
Proof.
  revert n j. induction l as [|p l IH]; intros n j H; [discriminate|].
  destruct j as [|j]; simpl in *.
  - injection H as ->. rewrite Nat.add_0_r, lookup_insert_eq. reflexivity.
  - apply orb_true_iff. right.
    replace (n + S j)%nat with (S n + j)%nat by lia. apply IH. exact H.
Qed.

(** *** Operations that leave the poller alone *)

Lemma frame_refl w : frame w w.
Proof. unfold frame. tauto. Qed.

Lemma frame_trans w1 w2 w3 : frame w1 w2 -> frame w2 w3 -> frame w1 w3.
Proof.
  unfold frame. intros (A1 & A2 & A3 & A4 & A5) (B1 & B2 & B3 & B4 & B5).
  repeat split; try congruence. auto.
Qed.

Lemma update_frame f w :
  (forall v, document (f v) = document v) -> frame w (update f w).
Proof.
  intros H. unfold frame, update, status_of, fetch_failed.
  destruct (mounted w) eqn:M; simpl; rewrite ?H, ?M; tauto.
Qed.

Lemma log_frame a w : frame w (log a w).
Proof. unfold frame. simpl. tauto. Qed.

Lemma send_frame p w : frame w (send p w).
Proof.
  unfold frame, fetch_failed. simpl. repeat split; try reflexivity.
  rewrite failed_from_app. intros H. apply orb_false_iff in H. tauto.
Qed.

Lemma mark_frame k r w :
  answered w !! k = None -> frame w (mark k r w).
Proof.
  intros H. unfold frame, fetch_failed. simpl.
  repeat split; try reflexivity. apply failed_from_insert. exact H.
Qed.

Lemma setLoading_frame b w : frame w (setLoading b w).
Proof. apply update_frame. reflexivity. Qed.

Lemma setRetrying_frame b w : frame w (setRetrying b w).
Proof. apply update_frame. reflexivity. Qed.

Lemma setResolvingId_frame r w : frame w (setResolvingId r w).
Proof. apply update_frame. reflexivity. Qed.

Lemma setResolutionNotes_frame s w : frame w (setResolutionNotes s w).
Proof. apply update_frame. reflexivity. Qed.

Lemma setIsExporting_frame b w : frame w (setIsExporting b w).
Proof. apply update_frame. reflexivity. Qed.

Lemma setError_frame m w : frame w (setError m w).
Proof.
  unfold setError. eapply frame_trans; [|apply log_frame].
  apply update_frame. reflexivity.
Qed.

Lemma loadDocument_frame sl w : frame w (loadDocument sl w).
Proof.
  unfold loadDocument. eapply frame_trans; [|apply send_frame].
  destruct sl; [apply setLoading_frame | apply frame_refl].
Qed.

Lemma handleRetry_frame w : frame w (handleRetry w).
Proof.
  unfold handleRetry. eapply frame_trans; [|apply send_frame].
  apply setRetrying_frame.
Qed.

Lemma handleDelete_frame c w : frame w (handleDelete c w).
Proof.
  unfold handleDelete. destruct c; simpl;
    [apply send_frame | apply frame_refl].
Qed.

Lemma handleExportReport_frame w : frame w (handleExportReport w).
Proof.
  unfold handleExportReport. destruct (document (view w));
    [|apply frame_refl].
  eapply frame_trans; [|apply send_frame]. apply setIsExporting_frame.
Qed.

Lemma handleResolveAlert_frame w : frame w (handleResolveAlert w).
Proof.
  unfold handleResolveAlert.
  destruct (_ || _); [apply frame_refl|].
  destruct (resolvingId (view w)); [apply send_frame | apply frame_refl].
Qed.

Lemma handleRetry_settled_frame r w w' :
  handleRetry_settled r w = Some w' -> frame w w'.
Proof.
  destruct r; simpl; try discriminate; intros H; injection H as <-.
  - eapply frame_trans; [apply loadDocument_frame|apply setRetrying_frame].
  - eapply frame_trans; [apply setError_frame|apply setRetrying_frame].
Qed.

Lemma handleDelete_settled_frame r w w' :
  handleDelete_settled r w = Some w' -> frame w w'.
Proof.
  destruct r; simpl; try discriminate; intros H; injection H as <-.
  - apply log_frame.
  - apply setError_frame.
Qed.

Lemma handleResolveAlert_settled_frame r w w' :
  handleResolveAlert_settled r w = Some w' -> frame w w'.
Proof.
  destruct r; simpl; try discriminate; intros H; injection H as <-.
  - eapply frame_trans; [apply setResolvingId_frame|].
    eapply frame_trans; [apply setResolutionNotes_frame|].
    apply loadDocument_frame.
  - apply setError_frame.
Qed.

Lemma handleExportReport_settled_frame d now r w w' :
  handleExportReport_settled d now r w = Some w' -> frame w w'.
Proof.
  destruct r; simpl; try discriminate; intros H; injection H as <-.
  - eapply frame_trans; [apply log_frame|apply setIsExporting_frame].
  - eapply frame_trans; [apply setError_frame|apply setIsExporting_frame].
Qed.

(** The polling effect is skipped when [document?.status] is unchanged. *)
Lemma commit_same_status old w :
  status_of old = status_of w -> commit old w = w.
Proof.
  intros H. unfold commit. destruct (decide _); [|contradiction].
  rewrite andb_false_r. reflexivity.
Qed.

Lemma commit_frame old w : frame old w -> commit old w = w.
Proof. intros (_ & _ & _ & H & _). apply commit_same_status. congruence. Qed.

Lemma commit_unmounted old w : mounted w = false -> commit old w = w.
Proof. intros H. unfold commit. rewrite H. reflexivity. Qed.

(** *** What the continuation of [loadDocument] does *)

Lemma loadDocument_settled_ok sl d w w' :
  loadDocument_settled sl (DocumentOk d) w = Some w' ->
  timers w' = timers w /\ pollingInterval w' = pollingInterval w /\
  mounted w' = mounted w /\ sent w' = sent w /\
  answered w' = answered w /\
  trace w' = trace w ++ [SetDocument d] /\
  (mounted w = true -> document (view w') = Some d) /\
  (mounted w = false -> view w' = view w).
Proof.
  unfold loadDocument_settled. intros H; injection H as <-.
  unfold setLoading, setDocument, update.
  destruct sl, (mounted w) eqn:M; simpl; rewrite ?M; simpl;
    repeat split; intros; congruence.
Qed.

Lemma loadDocument_settled_failed sl e w w' :
  loadDocument_settled sl (Failed e) w = Some w' ->
  timers w' = match pollingInterval w with
              | Some t => delete t (timers w)
              | None => timers w
              end /\
  pollingInterval w' = pollingInterval w /\
  mounted w' = mounted w /\ status_of w' = status_of w /\
  sent w' = sent w /\ answered w' = answered w /\
  trace w' = trace w ++ [SetError (message e)] /\
  (mounted w = true -> error (view w') = message e) /\
  (mounted w = false -> view w' = view w).
Proof.
  unfold loadDocument_settled. intros H; injection H as <-.
  unfold setLoading, setError, update, clearInterval, status_of.
  destruct sl, (mounted w) eqn:M, (pollingInterval w) eqn:P; simpl;
    rewrite ?M, ?P; simpl; rewrite ?M; simpl;
    repeat split; intros; congruence.
Qed.

(** *** The poller invariant *)

Lemma pollingEffect_cases w :
  pollingEffect w =
  if idle_status w
  then match pollingInterval w with
       | Some t => with_ref None (clearInterval t w)
       | None => w
       end
  else match pollingInterval w with
       | None => arm w
       | Some _ => w
       end.
Proof.
  unfold pollingEffect, idle_status.
  destruct (status_of w) as [[]|]; reflexivity.
Qed.

Lemma idle_status_frame w w' :
  status_of w' = status_of w -> idle_status w' = idle_status w.
Proof. unfold idle_status. intros ->. reflexivity. Qed.

Lemma Inv_frame w w' : Inv w -> frame w w' -> Inv w'.
Proof.
  intros (I1 & I2 & I3 & I4) (F1 & F2 & F3 & F4 & F5).
  pose proof (idle_status_frame _ _ F4) as F6.
  unfold Inv. rewrite F1, F2, F3, F6. repeat split; auto.
  - apply (I1 t p). assumption.
  - apply (I1 t p). assumption.
Qed.

Lemma timers_empty_of_null_ref w :
  (forall t p, timers w !! t = Some p ->
               pollingInterval w = Some t /\ p = poll_ms) ->
  pollingInterval w = None -> timers w = ∅.
Proof.
  intros I1 R. apply map_empty. intros t.
  destruct (timers w !! t) as [p|] eqn:L; [|reflexivity].
  destruct (I1 _ _ L) as [E _]. congruence.
Qed.

Lemma timers_empty_after_clear w t :
  (forall t p, timers w !! t = Some p ->
               pollingInterval w = Some t /\ p = poll_ms) ->
  pollingInterval w = Some t -> delete t (timers w) = ∅.
Proof.
  intros I1 R. apply map_empty. intros t'.
  destruct (decide (t = t')) as [->|Hne].
  - apply lookup_delete_eq.
  - rewrite lookup_delete_ne by exact Hne.
    destruct (timers w !! t') as [p|] eqn:L; [|reflexivity].
    destruct (I1 _ _ L) as [E _]. congruence.
Qed.

Lemma Inv_blank i : Inv (blank i).
Proof.
  unfold Inv. simpl. repeat split; try discriminate; try reflexivity.
Qed.

Lemma mountEffect_frame w : frame w (mountEffect w).
Proof.
  unfold mountEffect. destruct (truthy (id w));
    [apply loadDocument_frame | apply frame_refl].
Qed.

Lemma init_eq i : init i = mountEffect (blank i).
Proof.
  unfold init. rewrite pollingEffect_cases.
  destruct (mountEffect_frame (blank i)) as (_ & F2 & _ & F4 & _).
  rewrite (idle_status_frame _ _ F4), F2. reflexivity.
Qed.

Lemma Inv_init i : Inv (init i).
Proof.
  rewrite init_eq. eapply Inv_frame; [apply Inv_blank|].
  apply mountEffect_frame.
Qed.

Lemma Inv_unmount w : Inv w -> Inv (unmount w).
Proof.
  intros (I1 & I2 & I3 & I4).
  assert (E : timers (unmount w) = ∅).
  { pose proof (fun t => timers_empty_after_clear w t I1) as HA.
    pose proof (timers_empty_of_null_ref w I1) as HB.
    unfold unmount. destruct (pollingInterval w) as [t|]; simpl.
    - apply HA. reflexivity.
    - apply HB. reflexivity. }
  assert (R : pollingInterval (unmount w) = pollingInterval w).
  { unfold unmount. destruct (pollingInterval w) eqn:R; simpl;
      rewrite ?R; reflexivity. }
  assert (S : idle_status (unmount w) = idle_status w).
  { unfold idle_status, status_of, unmount.
    destruct (pollingInterval w); reflexivity. }
  assert (M : mounted (unmount w) = false) by reflexivity.
  unfold Inv. rewrite E, R, S, M. repeat split; try discriminate; auto.
Qed.

Lemma Inv_commit_document w w2 :
  Inv w ->
  timers w2 = timers w -> pollingInterval w2 = pollingInterval w ->
  mounted w2 = mounted w ->
  (fetch_failed w2 = false -> fetch_failed w = false) ->
  (mounted w = false -> status_of w2 = status_of w) ->
  Inv (commit w w2).
Proof.
  intros I T R M F U.
  assert (Fr : status_of w2 = status_of w -> frame w w2).
  { intros S. unfold frame. tauto. }
  destruct (mounted w2) eqn:M2.
  2:{ rewrite (commit_unmounted _ _ M2). apply (Inv_frame w); [exact I|].
      apply Fr, U. congruence. }
  unfold commit. rewrite M2. simpl.
  destruct (decide (status_of w = status_of w2)) as [E|NE].
  { apply (Inv_frame w); [exact I|]. apply Fr. congruence. }
  destruct I as (I1 & I2 & I3 & I4).
  pose proof (timers_empty_of_null_ref w I1) as HB.
  pose proof (fun t => timers_empty_after_clear w t I1) as HA.
  assert (Mw : mounted w = true) by congruence.
  rewrite pollingEffect_cases, R.
  destruct (idle_status w2) eqn:S2, (pollingInterval w) as [t|] eqn:Rw.
  - (* terminal status, ref set: clear and reset *)
    assert (E : delete t (timers w2) = ∅).
    { rewrite T. apply HA. reflexivity. }
    assert (S3 : idle_status (with_ref None (clearInterval t w2)) = true)
      by exact S2.
    unfold Inv. rewrite S3. simpl. rewrite E.
    split; [|split; [|split]]; try discriminate; auto.
  - (* terminal status, ref null *)
    unfold Inv. rewrite S2, T, R, M2.
    split; [|split; [|split]]; try discriminate; auto.
  - (* non-terminal status, ref set: nothing to do *)
    unfold Inv. rewrite S2, T, R, M2.
    split; [|split; [|split]]; try discriminate; auto.
    intros _ FF _. apply I4; [exact Mw|auto|].
    destruct (idle_status w) eqn:S; [|reflexivity].
    specialize (I3 eq_refl). discriminate.
  - (* non-terminal status, ref null: arm *)
    assert (E : timers w2 = ∅).
    { rewrite T. apply HB. reflexivity. }
    assert (S3 : idle_status (arm w2) = false) by exact S2.
    unfold Inv. rewrite S3. unfold arm. simpl. rewrite E.
    split; [|split; [|split]]; try discriminate.
    + intros t0 p H.
      apply lookup_insert_Some in H as [[-> <-]|[_ H]]; [split; reflexivity|].
      rewrite lookup_empty in H. discriminate.
    + rewrite M2. discriminate.
    + intros _ _ _. exists (next_timer w2). split; reflexivity.
Qed.

Lemma Inv_fetch_failed w w2 :
  Inv w ->
  timers w2 = match pollingInterval w with
              | Some t => delete t (timers w)
              | None => timers w
              end ->
  pollingInterval w2 = pollingInterval w -> mounted w2 = mounted w ->
  status_of w2 = status_of w -> fetch_failed w2 = true ->
  Inv w2.
Proof.
  intros (I1 & I2 & I3 & I4) T R M S F.
  assert (E : timers w2 = ∅).
  { pose proof (timers_empty_of_null_ref w I1) as HB.
    pose proof (fun t => timers_empty_after_clear w t I1) as HA.
    rewrite T. destruct (pollingInterval w) as [t|].
    - apply HA. reflexivity.
    - apply HB. reflexivity. }
  unfold Inv. rewrite E, R, (idle_status_frame _ _ S), F.
  repeat split; try discriminate; auto.
Qed.

Lemma settled_Inv k r now w w' :
  Inv w -> settled k r now w = Some w' -> Inv w'.
Proof.
  intros I. unfold settled.
  destruct (sent w !! k) as [p|] eqn:L; [|discriminate].
  destruct (answered w !! k) eqn:A; [discriminate|].
  pose proof (mark_frame k r w A) as FM.
  assert (G : forall w2, frame (mark k r w) w2 -> Inv (commit w w2)).
  { intros w2 F2. pose proof (frame_trans _ _ _ FM F2) as F.
    rewrite (commit_frame _ _ F). eapply Inv_frame; eassumption. }
  destruct p as [sl|d| | |rid notes].
  - destruct (loadDocument_settled sl r (mark k r w)) as [w2|] eqn:E;
      [|discriminate].
    intros H. injection H as <-.
    destruct FM as (FM1 & FM2 & FM3 & FM4 & FM5).
    destruct r as [d| | |e]; try discriminate.
    + destruct (loadDocument_settled_ok _ _ _ _ E)
        as (T & R & M & St & An & _ & _ & V).
      apply Inv_commit_document; try congruence.
      * intros FF. apply FM5. unfold fetch_failed in *.
        rewrite St, An in FF. exact FF.
      * intros Mw. unfold status_of. rewrite V by congruence. reflexivity.
    + destruct (loadDocument_settled_failed _ _ _ _ E)
        as (T & R & M & S & St & An & _).
      rewrite commit_same_status by congruence.
      apply (Inv_fetch_failed w); try congruence.
      * rewrite T, FM1, FM2. reflexivity.
      * unfold fetch_failed. rewrite St, An. simpl.
        apply (failed_from_hit 0 (sent w) k sl e). exact L.
  - destruct (handleExportReport_settled d now r (mark k r w)) as [w2|] eqn:E;
      [|discriminate].
    intros H. injection H as <-. apply G.
    eapply handleExportReport_settled_frame. exact E.
  - destruct (handleRetry_settled r (mark k r w)) as [w2|] eqn:E;
      [|discriminate].
    intros H. injection H as <-. apply G.
    eapply handleRetry_settled_frame. exact E.
  - destruct (handleDelete_settled r (mark k r w)) as [w2|] eqn:E;
      [|discriminate].
    intros H. injection H as <-. apply G.
    eapply handleDelete_settled_frame. exact E.
  - destruct (handleResolveAlert_settled r (mark k r w)) as [w2|] eqn:E;
      [|discriminate].
    intros H. injection H as <-. apply G.
    eapply handleResolveAlert_settled_frame. exact E.
Qed.

Lemma step_Inv e w w' : Inv w -> step e w = Some w' -> Inv w'.
Proof.
  intros I. destruct e; simpl.
  - destruct (timers w !! t); [|discriminate].
    intros H. injection H as <-.
    eapply Inv_frame; [exact I|apply loadDocument_frame].
  - apply settled_Inv. exact I.
  - destruct (mounted w); [|discriminate].
    intros H. injection H as <-. apply Inv_unmount. exact I.
  - destruct (retry_button_enabled w); [|discriminate].
    intros H. injection H as <-.
    eapply Inv_frame; [exact I|apply handleRetry_frame].
  - destruct (body_shown w); [|discriminate].
    intros H. injection H as <-.
    eapply Inv_frame; [exact I|apply handleDelete_frame].
  - destruct (_ && _); [|discriminate].
    intros H. injection H as <-.
    eapply Inv_frame; [exact I|apply handleExportReport_frame].
  - destruct (resolve_button_shown rid w); [|discriminate].
    intros H. injection H as <-.
    eapply Inv_frame; [exact I|apply setResolvingId_frame].
  - destruct (dialog_shown w); [|discriminate].
    intros H. injection H as <-.
    eapply Inv_frame; [exact I|apply setResolutionNotes_frame].
  - destruct (dialog_shown w); [|discriminate].
    intros H. injection H as <-.
    eapply Inv_frame; [exact I|].
    eapply frame_trans;
      [apply setResolvingId_frame|apply setResolutionNotes_frame].
  - destruct (_ && _); [|discriminate].
    intros H. injection H as <-.
    eapply Inv_frame; [exact I|apply handleResolveAlert_frame].
Qed.

Lemma run_Inv es : forall w w', Inv w -> run es w = Some w' -> Inv w'.
Proof.
  induction es as [|e es IH]; simpl; intros w w' I H.
  - injection H as <-. exact I.
  - destruct (step e w) as [w1|] eqn:E; [|discriminate].
    eapply IH; [|exact H]. eapply step_Inv; eassumption.
Qed.

Lemma reachable_Inv w : reachable w -> Inv w.
Proof. intros (i & es & H). eapply run_Inv; [apply Inv_init|exact H]. Qed.

Lemma reachable_step e w w' :
  reachable w -> step e w = Some w' -> reachable w'.
Proof.
  intros (i & es & H) S. exists i, (es ++ [e]).
  revert H. generalize (init i). induction es as [|e0 es IH]; simpl.
  - intros w0 H. injection H as ->. rewrite S. reflexivity.
  - intros w0. destruct (step e0 w0); [apply IH|discriminate].
Qed.

(** *** The three ways a reply is handled *)

Lemma pollingEffect_keeps w :
  view (pollingEffect w) = view w /\
  mounted (pollingEffect w) = mounted w /\
  sent (pollingEffect w) = sent w /\
  answered (pollingEffect w) = answered w /\
  trace (pollingEffect w) = trace w.
Proof.
  rewrite pollingEffect_cases.
  destruct (idle_status w), (pollingInterval w); repeat split; reflexivity.
Qed.

Lemma commit_keeps old w :
  view (commit old w) = view w /\
  mounted (commit old w) = mounted w /\
  sent (commit old w) = sent w /\
  answered (commit old w) = answered w /\
  trace (commit old w) = trace w.
Proof.
  unfold commit. destruct (_ && _); [apply pollingEffect_keeps|].
  repeat split; reflexivity.
Qed.

(** A reply either leaves the poller alone, or is a document applied by
    [loadDocument], or is a failure handled by [loadDocument]. *)
Lemma settled_cases k r now w w' :
  settled k r now w = Some w' ->
  answered w !! k = None /\
  (frame w w' \/
   (exists sl d w2,
      sent w !! k = Some (Await_loadDocument sl) /\ r = DocumentOk d /\
      loadDocument_settled sl r (mark k r w) = Some w2 /\
      w' = commit w w2) \/
   (exists sl e,
      sent w !! k = Some (Await_loadDocument sl) /\ r = Failed e /\
      loadDocument_settled sl r (mark k r w) = Some w')).
Proof.
  unfold settled.
  destruct (sent w !! k) as [p|] eqn:L; [|discriminate].
  destruct (answered w !! k) eqn:A; [discriminate|].
  intros H0. split; [reflexivity|]. revert H0.
  pose proof (mark_frame k r w A) as FM.
  assert (G : forall w2, frame (mark k r w) w2 -> Some (commit w w2) = Some w'
                         -> frame w w').
  { intros w2 F2 H. pose proof (frame_trans _ _ _ FM F2) as F.
    rewrite (commit_frame _ _ F) in H. injection H as <-. exact F. }
  destruct p as [sl|d| | |rid notes].
  - destruct (loadDocument_settled sl r (mark k r w)) as [w2|] eqn:E;
      [|discriminate].
    intros H. injection H as <-.
    destruct r as [d| | |e]; try discriminate.
    + right. left. exists sl, d, w2. repeat split; assumption.
    + right. right. exists sl, e. repeat split.
      destruct (loadDocument_settled_failed _ _ _ _ E)
        as (_ & _ & _ & S & _).
      destruct FM as (_ & _ & _ & FM4 & _).
      rewrite commit_same_status by congruence. exact E.
  - destruct (handleExportReport_settled d now r (mark k r w)) as [w2|] eqn:E;
      [|discriminate].
    intros H. left. eapply G; [|exact H].
    eapply handleExportReport_settled_frame. exact E.
  - destruct (handleRetry_settled r (mark k r w)) as [w2|] eqn:E;
      [|discriminate].
    intros H. left. eapply G; [|exact H].
    eapply handleRetry_settled_frame. exact E.
  - destruct (handleDelete_settled r (mark k r w)) as [w2|] eqn:E;
      [|discriminate].
    intros H. left. eapply G; [|exact H].
    eapply handleDelete_settled_frame. exact E.
  - destruct (handleResolveAlert_settled r (mark k r w)) as [w2|] eqn:E;
      [|discriminate].
    intros H. left. eapply G; [|exact H].
    eapply handleResolveAlert_settled_frame. exact E.
Qed.

(** A successful [getDocument] reply, whatever its position in the issue
    order, is passed to [setDocument]. *)
Lemma settled_document k sl d now w w' :
  sent w !! k = Some (Await_loadDocument sl) ->
  settled k (DocumentOk d) now w = Some w' ->
  mounted w' = mounted w /\ sent w' = sent w /\
  trace w' = trace w ++ [SetDocument d] /\
  (mounted w = true -> document (view w') = Some d) /\
  (mounted w = false -> view w' = view w).
Proof.
  intros L H. unfold settled in H. rewrite L in H.
  destruct (answered w !! k); [discriminate|].
  destruct (loadDocument_settled sl (DocumentOk d) (mark k (DocumentOk d) w))
    as [w2|] eqn:E; [|discriminate].
  injection H as <-.
  destruct (loadDocument_settled_ok _ _ _ _ E)
    as (_ & _ & M & St & _ & Tr & V1 & V2).
  destruct (commit_keeps w w2) as (C1 & C2 & C3 & _ & C5).
  rewrite C1, C2, C3, C5. repeat split; assumption.
Qed.

(** A failed [getDocument] reply is passed to [setError]; the interval
    held by the ref is cleared, the ref itself is left as it is. *)
Lemma settled_fetch_failure k sl e now w w' :
  sent w !! k = Some (Await_loadDocument sl) ->
  settled k (Failed e) now w = Some w' ->
  timers w' = match pollingInterval w with
              | Some t => delete t (timers w)
              | None => timers w
              end /\
  pollingInterval w' = pollingInterval w /\
  mounted w' = mounted w /\
  trace w' = trace w ++ [SetError (message e)] /\
  (mounted w = false -> view w' = view w).
Proof.
  intros L H. unfold settled in H. rewrite L in H.
  destruct (answered w !! k) eqn:A; [discriminate|].
  destruct (loadDocument_settled sl (Failed e) (mark k (Failed e) w))
    as [w2|] eqn:E; [|discriminate].
  injection H as <-.
  destruct (loadDocument_settled_failed _ _ _ _ E)
    as (T & P & M & S & _ & _ & Tr & _ & V).
  rewrite commit_same_status by (rewrite S; reflexivity).
  repeat split; assumption.
Qed.

(** *** Ordering of fetch results *)

(** C1, as the specification states it, fails: polls A (position 1) and B
    (position 2) are issued in this order, B is answered first, and after
    both replies the page shows A's result. *)
Lemma later_issued_result_is_overwritten :
  exists w w',
    run DetailScenarios.two_polls (init DetailScenarios.route) = Some w /\
    sent w !! 1%nat = Some (Await_loadDocument false) /\
    sent w !! 2%nat = Some (Await_loadDocument false) /\
    run [Settle 2 (DocumentOk DetailScenarios.result_B) DetailScenarios.noon;
         Settle 1 (DocumentOk DetailScenarios.result_A) DetailScenarios.noon]
        w = Some w' /\
    document (view w') = Some DetailScenarios.result_A /\
    document (view w') <> Some DetailScenarios.result_B.
Proof.
  exists (default (blank [])
            (run DetailScenarios.two_polls (init DetailScenarios.route))).
  exists (default (blank [])
            (run DetailScenarios.out_of_order (init DetailScenarios.route))).
  vm_compute. repeat split; try reflexivity. intros H. discriminate H.
Qed.

(** C1, amended. There is no sequence number: every result is applied on
    arrival.  For fetches issued A then B, when B's result arrives before
    A's, [setDocument] is called with B's result and then with A's, and
    the state applied after both is A's result, the last to arrive. *)
Theorem last_arrived_fetch_wins (w w' : World) (a b : nat) (la lb : bool)
  (dA dB : DocumentDetail) (nowA nowB : Date) :
  (a < b)%nat ->
  sent w !! a = Some (Await_loadDocument la) ->
  sent w !! b = Some (Await_loadDocument lb) ->
  mounted w = true ->
  run [Settle b (DocumentOk dB) nowB; Settle a (DocumentOk dA) nowA] w
    = Some w' ->
  document (view w') = Some dA /\
  trace w' = trace w ++ [SetDocument dB; SetDocument dA].
Proof.
  intros _ La Lb M. simpl.
  destruct (settled b (DocumentOk dB) nowB w) as [wB|] eqn:EB;
    [|discriminate].
  destruct (settled a (DocumentOk dA) nowA wB) as [wA|] eqn:EA;
    [|discriminate].
  intros H. injection H as <-.
  destruct (settled_document _ _ _ _ _ _ Lb EB) as (MB & SB & TB & _ & _).
  rewrite <- SB in La.
  destruct (settled_document _ _ _ _ _ _ La EA) as (_ & _ & TA & VA & _).
  split.
  - apply VA. congruence.
  - rewrite TA, TB, <- app_assoc. reflexivity.
Qed.

Lemma last_arrived_fetch_wins_witness :
  let w := default (blank [])
             (run DetailScenarios.two_polls (init DetailScenarios.route)) in
  let w' := default (blank [])
              (run DetailScenarios.out_of_order
                   (init DetailScenarios.route)) in
  document (view w') = Some DetailScenarios.result_A /\
  trace w' = trace w ++ [SetDocument DetailScenarios.result_B;
                         SetDocument DetailScenarios.result_A].
Proof.
  intros w w'.
  apply (last_arrived_fetch_wins w w' 1 2 false false
           DetailScenarios.result_A DetailScenarios.result_B
           DetailScenarios.noon DetailScenarios.noon).
  - lia.
  - vm_compute. reflexivity.
  - vm_compute. reflexivity.
  - vm_compute. reflexivity.
  - vm_compute. reflexivity.
Defined.

(** *** The poller after a fetch *)

(** C2, as the specification states it, fails: two polls are in flight,
    the first fails, the second then succeeds with the document still in
    PROCESSING; its result is applied and no interval is armed. *)
Lemma processing_without_timer_after_failed_poll :
  exists w w',
    run DetailScenarios.poll_fails (init DetailScenarios.route) = Some w /\
    sent w !! 2%nat = Some (Await_loadDocument false) /\
    step (Settle 2 (DocumentOk (DetailScenarios.doc "q3.pdf" PROCESSING))
                 DetailScenarios.noon) w = Some w' /\
    mounted w' = true /\
    status_of w' = Some PROCESSING /\
    timers w' = ∅.
Proof.
  exists (default (blank [])
            (run DetailScenarios.poll_fails (init DetailScenarios.route))).
  exists (default (blank [])
            (run DetailScenarios.poll_fails_then_succeeds
                 (init DetailScenarios.route))).
  vm_compute. repeat split; reflexivity.
Qed.

(** C2, amended. Immediately after a fetch result is applied on the
    mounted page: under COMPLETED or FAILED no interval is armed and the
    ref is null; under UPLOADED or PROCESSING, provided no [getDocument]
    call of this mount has failed so far, exactly one interval is armed,
    the one held by the ref, with a period of 3000 ms. *)
Theorem poller_follows_status_after_fetch (w w' : World) (k : nat)
  (sl : bool) (d : DocumentDetail) (now : Date) :
  reachable w ->
  mounted w = true ->
  sent w !! k = Some (Await_loadDocument sl) ->
  step (Settle k (DocumentOk d) now) w = Some w' ->
  document (view w') = Some d /\
  (non_terminal (status d) = false ->
     timers w' = ∅ /\ pollingInterval w' = None) /\
  (non_terminal (status d) = true -> fetch_failed w' = false ->
     exists t, pollingInterval w' = Some t /\ timers w' = {[t := 3000]}).
Proof.
  intros R M L H.
  pose proof (reachable_Inv _ (reachable_step _ _ _ R H)) as I.
  simpl in H.
  destruct (settled_document _ _ _ _ _ _ L H) as (M' & _ & _ & V & _).
  specialize (V M). rewrite M in M'.
  assert (S : idle_status w' = negb (non_terminal (status d))).
  { unfold idle_status, status_of. rewrite V. reflexivity. }
  destruct I as (I1 & _ & I3 & I4). rewrite S in I3, I4.
  split; [exact V|]. split.
  - intros N. rewrite N in I3. specialize (I3 eq_refl).
    split; [|exact I3]. apply timers_empty_of_null_ref; assumption.
  - intros N FF. rewrite N in I4. apply I4; auto.
Qed.

Lemma poller_follows_status_after_fetch_witness :
  let w := init DetailScenarios.route in
  let w' := default (blank [])
              (run DetailScenarios.polling (init DetailScenarios.route)) in
  document (view w') = Some (DetailScenarios.doc "q3.pdf" PROCESSING) /\
  exists t, pollingInterval w' = Some t /\ timers w' = {[t := 3000]}.
Proof.
  intros w w'.
  destruct (poller_follows_status_after_fetch w w' 0 true
              (DetailScenarios.doc "q3.pdf" PROCESSING) DetailScenarios.noon)
    as (H1 & _ & H3).
  - exists DetailScenarios.route, []. reflexivity.
  - vm_compute. reflexivity.
  - vm_compute. reflexivity.
  - vm_compute. reflexivity.
  - split; [exact H1|]. apply H3; vm_compute; reflexivity.
Defined.

(** *** After teardown *)

Lemma frozen_refl w : frozen w w.
Proof. intros M. split; [exact M|reflexivity]. Qed.

Lemma frozen_trans w1 w2 w3 : frozen w1 w2 -> frozen w2 w3 -> frozen w1 w3.
Proof.
  intros A B M. destruct (A M) as [M2 V2]. destruct (B M2) as [M3 V3].
  split; congruence.
Qed.

Lemma update_frozen f w : frozen w (update f w).
Proof. intros M. unfold update. rewrite M. split; [exact M|reflexivity]. Qed.

Lemma log_frozen a w : frozen w (log a w).
Proof. intros M. split; [exact M|reflexivity]. Qed.

Lemma send_frozen p w : frozen w (send p w).
Proof. intros M. split; [exact M|reflexivity]. Qed.

Lemma mark_frozen k r w : frozen w (mark k r w).
Proof. intros M. split; [exact M|reflexivity]. Qed.

Lemma clearInterval_frozen t w : frozen w (clearInterval t w).
Proof. intros M. split; [exact M|reflexivity]. Qed.

Lemma setDocument_frozen d w : frozen w (setDocument d w).
Proof.
  unfold setDocument. eapply frozen_trans; [apply update_frozen|].
  apply log_frozen.
Qed.

Lemma setError_frozen m w : frozen w (setError m w).
Proof.
  unfold setError. eapply frozen_trans; [apply update_frozen|].
  apply log_frozen.
Qed.

Lemma loadDocument_frozen sl w : frozen w (loadDocument sl w).
Proof.
  unfold loadDocument. eapply frozen_trans; [|apply send_frozen].
  destruct sl; [apply update_frozen|apply frozen_refl].
Qed.

Lemma loadDocument_settled_frozen sl r w w' :
  loadDocument_settled sl r w = Some w' -> frozen w w'.
Proof.
  intros H M. destruct r; try discriminate.
  - destruct (loadDocument_settled_ok _ _ _ _ H)
      as (_ & _ & M' & _ & _ & _ & _ & V).
    split; [congruence|auto].
  - destruct (loadDocument_settled_failed _ _ _ _ H)
      as (_ & _ & M' & _ & _ & _ & _ & _ & V).
    split; [congruence|auto].
Qed.

Lemma handleExportReport_settled_frozen d now r w w' :
  handleExportReport_settled d now r w = Some w' -> frozen w w'.
Proof.
  destruct r; simpl; try discriminate; intros H; injection H as <-.
  - eapply frozen_trans; [apply log_frozen|apply update_frozen].
  - eapply frozen_trans; [apply setError_frozen|apply update_frozen].
Qed.

Lemma handleRetry_settled_frozen r w w' :
  handleRetry_settled r w = Some w' -> frozen w w'.
Proof.
  destruct r; simpl; try discriminate; intros H; injection H as <-.
  - eapply frozen_trans; [apply loadDocument_frozen|apply update_frozen].
  - eapply frozen_trans; [apply setError_frozen|apply update_frozen].
Qed.

Lemma handleDelete_settled_frozen r w w' :
  handleDelete_settled r w = Some w' -> frozen w w'.
Proof.
  destruct r; simpl; try discriminate; intros H; injection H as <-.
  - apply log_frozen.
  - apply setError_frozen.
Qed.

Lemma handleResolveAlert_settled_frozen r w w' :
  handleResolveAlert_settled r w = Some w' -> frozen w w'.
Proof.
  destruct r; simpl; try discriminate; intros H; injection H as <-.
  - eapply frozen_trans; [apply update_frozen|].
    eapply frozen_trans; [apply update_frozen|].
    apply loadDocument_frozen.
  - apply setError_frozen.
Qed.

Lemma settled_frozen k r now w w' :
  settled k r now w = Some w' -> frozen w w'.
Proof.
  unfold settled.
  destruct (sent w !! k) as [p|]; [|discriminate].
  destruct (answered w !! k); [discriminate|].
  assert (G : forall w2, frozen (mark k r w) w2 -> frozen w (commit w w2)).
  { intros w2 F M.
    destruct (frozen_trans _ _ _ (mark_frozen k r w) F M) as [M2 V2].
    rewrite (commit_unmounted _ _ M2). split; assumption. }
  destruct p as [sl|d| | |rid notes].
  - destruct (loadDocument_settled sl r (mark k r w)) as [w2|] eqn:E;
      [|discriminate].
    intros H. injection H as <-.
    eapply G, loadDocument_settled_frozen, E.
  - destruct (handleExportReport_settled d now r (mark k r w)) as [w2|] eqn:E;
      [|discriminate].
    intros H. injection H as <-.
    eapply G, handleExportReport_settled_frozen, E.
  - destruct (handleRetry_settled r (mark k r w)) as [w2|] eqn:E;
      [|discriminate].
    intros H. injection H as <-.
    eapply G, handleRetry_settled_frozen, E.
  - destruct (handleDelete_settled r (mark k r w)) as [w2|] eqn:E;
      [|discriminate].
    intros H. injection H as <-.
    eapply G, handleDelete_settled_frozen, E.
  - destruct (handleResolveAlert_settled r (mark k r w)) as [w2|] eqn:E;
      [|discriminate].
    intros H. injection H as <-.
    eapply G, handleResolveAlert_settled_frozen, E.
Qed.

(** Once unmounted the cells are frozen and the component stays
    unmounted, whatever happens; no button can be clicked any more. *)
Lemma step_unmounted e w w' :
  mounted w = false -> step e w = Some w' ->
  mounted w' = false /\ view w' = view w.
Proof.
  intros M. destruct e; simpl;
    unfold retry_button_enabled, resolve_button_shown, dialog_shown,
           body_shown; rewrite ?M; simpl; try discriminate.
  - destruct (timers w !! t); [|discriminate].
    intros H. injection H as <-. apply loadDocument_frozen. exact M.
  - intros H. eapply settled_frozen; eassumption.
Qed.

Lemma run_unmounted es : forall w w',
  mounted w = false -> run es w = Some w' ->
  mounted w' = false /\ view w' = view w.
Proof.
  induction es as [|e es IH]; simpl; intros w w' M H.
  - injection H as <-. split; [exact M|reflexivity].
  - destruct (step e w) as [w1|] eqn:E; [|discriminate].
    destruct (step_unmounted _ _ _ M E) as [M1 V1].
    destruct (IH _ _ M1 H) as [M2 V2]. split; congruence.
Qed.

Lemma reachable_run es : forall w w',
  reachable w -> run es w = Some w' -> reachable w'.
Proof.
  induction es as [|e es IH]; simpl; intros w w' R H.
  - injection H as <-. exact R.
  - destruct (step e w) as [w1|] eqn:E; [|discriminate].
    eapply IH; [|exact H]. eapply reachable_step; eassumption.
Qed.

(** C3, as the specification states it, fails: the observer leaves while
    a poll is in flight; the interval is cancelled, but when the reply
    arrives [loadDocument] still calls [setDocument] (or [setError]). *)
Lemma result_in_flight_at_teardown_is_not_discarded :
  exists w1 w2 w3,
    run DetailScenarios.left_while_polling (init DetailScenarios.route)
      = Some w1 /\
    mounted w1 = false /\ timers w1 = ∅ /\
    sent w1 !! 1%nat = Some (Await_loadDocument false) /\
    step (Settle 1 (DocumentOk DetailScenarios.late_result)
                 DetailScenarios.noon) w1 = Some w2 /\
    trace w2 = trace w1 ++ [SetDocument DetailScenarios.late_result] /\
    step (Settle 1 (Failed Scenarios.timeout) DetailScenarios.noon) w1
      = Some w3 /\
    trace w3 = trace w1 ++ [SetError (message Scenarios.timeout)].
Proof.
  pose (w1 := default (blank [])
                (run DetailScenarios.left_while_polling
                     (init DetailScenarios.route))).
  exists w1.
  exists (default (blank [])
            (step (Settle 1 (DocumentOk DetailScenarios.late_result)
                          DetailScenarios.noon) w1)).
  exists (default (blank [])
            (step (Settle 1 (Failed Scenarios.timeout)
                          DetailScenarios.noon) w1)).
  vm_compute. repeat split; reflexivity.
Qed.

(** C3, amended. At teardown the armed interval, if any, is cancelled at
    once, and from then on no interval is armed and the cells of the
    unmounted component never change.  A [getDocument] call in flight at
    teardown is not marked to be ignored: when its reply arrives,
    [loadDocument] still calls [setDocument] with the result, or
    [setError] with the message of the failure. *)
Theorem teardown_cancels_timer_not_fetch (w w1 : World) :
  reachable w ->
  step Unmount w = Some w1 ->
  timers w1 = ∅ /\ mounted w1 = false /\
  (forall es w2, run es w1 = Some w2 ->
     timers w2 = ∅ /\ mounted w2 = false /\ view w2 = view w1) /\
  (forall k sl d now w2,
     sent w1 !! k = Some (Await_loadDocument sl) ->
     step (Settle k (DocumentOk d) now) w1 = Some w2 ->
     trace w2 = trace w1 ++ [SetDocument d]) /\
  (forall k sl e now w2,
     sent w1 !! k = Some (Await_loadDocument sl) ->
     step (Settle k (Failed e) now) w1 = Some w2 ->
     trace w2 = trace w1 ++ [SetError (message e)]).
Proof.
  intros R H.
  pose proof (reachable_step _ _ _ R H) as R1.
  assert (M1 : mounted w1 = false).
  { simpl in H. destruct (mounted w); [|discriminate].
    injection H as <-. reflexivity. }
  destruct (reachable_Inv _ R1) as (_ & I2 & _).
  split; [auto|]. split; [exact M1|]. split; [|split].
  - intros es w2 E.
    destruct (run_unmounted _ _ _ M1 E) as [M2 V2].
    destruct (reachable_Inv _ (reachable_run _ _ _ R1 E)) as (_ & J2 & _).
    auto.
  - intros k sl d now w2 L S. simpl in S.
    destruct (settled_document _ _ _ _ _ _ L S) as (_ & _ & T & _).
    exact T.
  - intros k sl e now w2 L S. simpl in S.
    destruct (settled_fetch_failure _ _ _ _ _ _ L S) as (_ & _ & _ & T & _).
    exact T.
Qed.

Lemma teardown_cancels_timer_not_fetch_witness :
  let w := default (blank [])
             (run (DetailScenarios.polling ++ [Tick 1])
                  (init DetailScenarios.route)) in
  let w1 := default (blank [])
              (run DetailScenarios.left_while_polling
                   (init DetailScenarios.route)) in
  timers w = {[1%nat := 3000]} /\ timers w1 = ∅ /\ mounted w1 = false.
Proof.
  intros w w1. split; [vm_compute; reflexivity|].
  destruct (teardown_cancels_timer_not_fetch w w1) as (H1 & H2 & _).
  - exists DetailScenarios.route, (DetailScenarios.polling ++ [Tick 1]).
    vm_compute. reflexivity.
  - vm_compute. reflexivity.
  - split; assumption.
Defined.

(** *** Delete *)

(** C5, as the specification states it, fails: the delete is confirmed,
    the service answers NotFoundError; the message is put in the error
    cell and [router.push] is not called, whereas a successful delete
    ends with [router.push("/documents")]. *)
Lemma not_found_on_delete_is_surfaced :
  exists w w',
    run DetailScenarios.delete_not_found (init DetailScenarios.route)
      = Some w /\
    kind Scenarios.not_found = NotFoundError /\
    error (view w) = lit "Document not found" /\
    trace w = [SetDocument (DetailScenarios.doc "Q3.report.pdf" COMPLETED);
               SetError (lit "Document not found")] /\
    run DetailScenarios.delete_ok (init DetailScenarios.route) = Some w' /\
    error (view w') = [] /\
    trace w' = [SetDocument (DetailScenarios.doc "Q3.report.pdf" COMPLETED);
                RouterPush (lit "/documents")].
Proof.
  exists (default (blank [])
            (run DetailScenarios.delete_not_found
                 (init DetailScenarios.route))).
  exists (default (blank [])
            (run DetailScenarios.delete_ok (init DetailScenarios.route))).
  vm_compute. repeat split; reflexivity.
Qed.

(** C5, amended. When [deleteDocument] succeeds the page calls
    [router.push("/documents")] and touches no cell.  When it fails, with
    whatever kind of error (NotFoundError on a double delete included),
    the page calls [setError] with the message of the error and does not
    redirect. *)
Theorem delete_redirects_only_on_success (w w' : World) (k : nat)
  (r : Reply) (now : Date) :
  sent w !! k = Some Await_handleDelete ->
  step (Settle k r now) w = Some w' ->
  match r with
  | VoidOk =>
      trace w' = trace w ++ [RouterPush (lit "/documents")] /\
      view w' = view w
  | Failed e =>
      trace w' = trace w ++ [SetError (message e)] /\
      (mounted w = true -> error (view w') = message e)
  | _ => False
  end.
Proof.
  intros L. simpl. unfold settled. rewrite L.
  destruct (answered w !! k) eqn:A; [discriminate|].
  destruct (handleDelete_settled r (mark k r w)) as [w2|] eqn:E;
    [|discriminate].
  intros H. injection H as <-.
  rewrite commit_frame.
  2:{ eapply frame_trans; [apply mark_frame; exact A|].
      eapply handleDelete_settled_frame. exact E. }
  destruct r; simpl in E; try discriminate; injection E as <-.
  - split; reflexivity.
  - unfold setError, update. simpl.
    destruct (mounted w) eqn:M; simpl; split; try reflexivity;
      intros; congruence.
Qed.

Lemma delete_redirects_only_on_success_witness :
  let w := default (blank [])
             (run (DetailScenarios.loaded ++ [ClickDelete true])
                  (init DetailScenarios.route)) in
  let w' := default (blank [])
              (run DetailScenarios.delete_not_found
                   (init DetailScenarios.route)) in
  trace w' = trace w ++ [SetError (message Scenarios.not_found)] /\
  (mounted w = true -> error (view w') = message Scenarios.not_found).
Proof.
  intros w w'.
  apply (delete_redirects_only_on_success w w' 1
           (Failed Scenarios.not_found) DetailScenarios.noon).
  - vm_compute. reflexivity.
  - vm_compute. reflexivity.
Defined.

(** *** Resolving a risk flag *)

(** C6. When the resolution notes are empty or consist of white space
    only, [handleResolveAlert] returns at once: the page, its network log
    included, is left as it was, so no [resolveAlert] call is issued; the
    confirm button of the dialog is disabled as well. *)
Theorem blank_resolution_notes_are_rejected (w : World) :
  forallb is_white_space (resolutionNotes (view w)) = true ->
  handleResolveAlert w = w /\
  sent (handleResolveAlert w) = sent w /\
  confirm_disabled w = true.
Proof.
  intros B. pose proof (blank_not_truthy _ B) as T.
  assert (E : handleResolveAlert w = w).
  { unfold handleResolveAlert. rewrite T, orb_true_r. reflexivity. }
  rewrite E. unfold confirm_disabled. rewrite T. repeat split.
Qed.

(** With a flag selected and notes that are not blank, the call is
    issued, with the notes as typed. *)
Lemma written_resolution_notes_are_sent (w : World) (rid : jsstring) :
  resolvingId (view w) = Some rid -> truthy rid = true ->
  forallb is_white_space (resolutionNotes (view w)) = false ->
  sent (handleResolveAlert w)
  = sent w ++ [Await_handleResolveAlert rid (resolutionNotes (view w))].
Proof.
  intros R T B. unfold handleResolveAlert. rewrite R. simpl. rewrite T.
  destruct (trim (resolutionNotes (view w))) eqn:E.
  - apply trim_nil in E. congruence.
  - reflexivity.
Qed.

Lemma blank_resolution_notes_are_rejected_witness :
  let w := default (blank [])
             (run DetailScenarios.dialog_blank
                  (init DetailScenarios.route)) in
  resolvingId (view w) = Some (lit "rf1") /\
  resolutionNotes (view w) = Scenarios.blank_notes /\
  handleResolveAlert w = w /\
  sent (handleResolveAlert w) = sent w /\
  confirm_disabled w = true.
Proof.
  intros w. split; [vm_compute; reflexivity|].
  split; [vm_compute; reflexivity|].
  apply (blank_resolution_notes_are_rejected w).
  vm_compute. reflexivity.
Defined.

(** *** After a failed fetch *)

(** Every event is a click or tick that leaves the poller alone, the
    unmount, or a reply. *)
Lemma step_cases e w w' :
  step e w = Some w' ->
  frame w w' \/
  (e = Unmount /\ w' = unmount w) \/
  (exists k r now, e = Settle k r now /\ settled k r now w = Some w').
Proof.
  destruct e; simpl.
  - destruct (timers w !! t); [|discriminate].
    intros H. injection H as <-. left. apply loadDocument_frame.
  - intros H. right. right. exists k, r, now. split; [reflexivity|exact H].
  - destruct (mounted w); [|discriminate].
    intros H. injection H as <-. right. left. split; reflexivity.
  - destruct (retry_button_enabled w); [|discriminate].
    intros H. injection H as <-. left. apply handleRetry_frame.
  - destruct (body_shown w); [|discriminate].
    intros H. injection H as <-. left. apply handleDelete_frame.
  - destruct (_ && _); [|discriminate].
    intros H. injection H as <-. left. apply handleExportReport_frame.
  - destruct (resolve_button_shown rid w); [|discriminate].
    intros H. injection H as <-. left. apply setResolvingId_frame.
  - destruct (dialog_shown w); [|discriminate].
    intros H. injection H as <-. left. apply setResolutionNotes_frame.
  - destruct (dialog_shown w); [|discriminate].
    intros H. injection H as <-. left.
    eapply frame_trans;
      [apply setResolvingId_frame|apply setResolutionNotes_frame].
  - destruct (_ && _); [|discriminate].
    intros H. injection H as <-. left. apply handleResolveAlert_frame.
Qed.

(** With the ref set and no interval armed, nothing arms one as long as
    no document in a terminal state arrives. *)
Lemma step_stale_ref e w w' t :
  pollingInterval w = Some t -> timers w = ∅ ->
  non_terminal_result e = true ->
  step e w = Some w' ->
  pollingInterval w' = Some t /\ timers w' = ∅.
Proof.
  intros P T N H.
  destruct (step_cases _ _ _ H)
    as [(F1 & F2 & _)|[[-> ->]|(k & r & now & -> & S)]].
  - split; congruence.
  - unfold unmount. rewrite P. simpl. rewrite T, delete_empty. auto.
  - destruct (settled_cases _ _ _ _ _ S)
      as (_ & [(F1 & F2 & _)|[(sl & d & w2 & L & -> & E & ->)
                             |(sl & e & L & -> & E)]]).
    + split; congruence.
    + destruct (loadDocument_settled_ok _ _ _ _ E)
        as (T2 & P2 & M2 & _ & _ & _ & V & _).
      simpl in T2, P2, M2, V, N.
      unfold commit.
      destruct (mounted w2) eqn:Mw; simpl; [|split; congruence].
      destruct (decide (status_of w = status_of w2)); [split; congruence|].
      rewrite pollingEffect_cases.
      assert (I : idle_status w2 = false).
      { unfold idle_status, status_of. rewrite V by congruence.
        simpl. rewrite N. reflexivity. }
      rewrite I, P2, P. split; congruence.
    + destruct (loadDocument_settled_failed _ _ _ _ E)
        as (T2 & P2 & _).
      simpl in T2, P2. rewrite P in T2. rewrite T, delete_empty in T2.
      split; congruence.
Qed.

Lemma run_stale_ref es : forall w w' t,
  pollingInterval w = Some t -> timers w = ∅ ->
  forallb non_terminal_result es = true ->
  run es w = Some w' ->
  pollingInterval w' = Some t /\ timers w' = ∅.
Proof.
  induction es as [|e es IH]; simpl; intros w w' t P T N H.
  - injection H as <-. auto.
  - apply andb_true_iff in N as [N1 N2].
    destruct (step e w) as [w1|] eqn:E; [|discriminate].
    destruct (step_stale_ref _ _ _ _ P T N1 E) as [P1 T1].
    eapply IH; eassumption.
Qed.

(** C10, as stated, fails: three polls are in flight, the first fails
    (the interval is cleared, the ref stays set); the second reports
    COMPLETED, which resets the ref to null; the third reports
    PROCESSING, and an interval is armed again within the same mount. *)
Lemma timer_rearmed_after_failed_fetch :
  exists w1 w2,
    run DetailScenarios.three_polls_first_fails
        (init DetailScenarios.route) = Some w1 /\
    fetch_failed w1 = true /\
    pollingInterval w1 = Some 1%nat /\ timers w1 = ∅ /\
    run DetailScenarios.later_results w1 = Some w2 /\
    mounted w2 = true /\
    pollingInterval w2 = Some 2%nat /\ timers w2 = {[2%nat := 3000]}.
Proof.
  pose (w1 := default (blank [])
                (run DetailScenarios.three_polls_first_fails
                     (init DetailScenarios.route))).
  exists w1.
  exists (default (blank []) (run DetailScenarios.later_results w1)).
  vm_compute. repeat split; reflexivity.
Qed.

(** C10, amended. When a [getDocument] fetch fails while the interval
    ref is set, the handler clears the interval and leaves the ref set,
    and from then on no interval is armed for as long as every document
    that arrives is in a non-terminal state (UPLOADED or PROCESSING).
    (A document arriving in a terminal state resets the ref to null,
    after which a non-terminal one arms an interval again.) *)
Theorem no_rearm_while_ref_stays_set (w w1 w2 : World) (k : nat)
  (sl : bool) (e : ApiError) (now : Date) (t : nat) (es : list Event) :
  reachable w ->
  sent w !! k = Some (Await_loadDocument sl) ->
  pollingInterval w = Some t ->
  step (Settle k (Failed e) now) w = Some w1 ->
  forallb non_terminal_result es = true ->
  run es w1 = Some w2 ->
  (pollingInterval w1 = Some t /\ timers w1 = ∅) /\
  (pollingInterval w2 = Some t /\ timers w2 = ∅).
Proof.
  intros R L P S N E.
  destruct (reachable_Inv _ R) as (I1 & _).
  simpl in S.
  destruct (settled_fetch_failure _ _ _ _ _ _ L S) as (T1 & P1 & _).
  rewrite P in T1, P1.
  rewrite (timers_empty_after_clear w t I1 P) in T1.
  split; [auto|]. eapply run_stale_ref; eassumption.
Qed.

Lemma no_rearm_while_ref_stays_set_witness :
  let w := default (blank [])
             (run (DetailScenarios.polling ++ [Tick 1; Tick 1; Tick 1])
                  (init DetailScenarios.route)) in
  let w1 := default (blank [])
              (run DetailScenarios.three_polls_first_fails
                   (init DetailScenarios.route)) in
  let w2 := default (blank [])
              (run DetailScenarios.later_results_processing w1) in
  status_of w2 = Some PROCESSING /\
  (pollingInterval w1 = Some 1%nat /\ timers w1 = ∅) /\
  (pollingInterval w2 = Some 1%nat /\ timers w2 = ∅).
Proof.
  intros w w1 w2. split; [vm_compute; reflexivity|].
  apply (no_rearm_while_ref_stays_set w w1 w2 1 false Scenarios.timeout
           DetailScenarios.noon 1 DetailScenarios.later_results_processing).
  - exists DetailScenarios.route,
      (DetailScenarios.polling ++ [Tick 1; Tick 1; Tick 1]).
    vm_compute. reflexivity.
  - vm_compute. reflexivity.
  - vm_compute. reflexivity.
  - vm_compute. reflexivity.
  - vm_compute. reflexivity.
  - vm_compute. reflexivity.
Defined.

End DetailProps.

(** ** The exported report *)

Module ExportProps.
Import DetailPage ExportSpec.

Lemma split_none sep s :
  Forall (fun c => c <> sep) s -> split sep s = [s].
Proof.
  induction 1 as [|c s Hc _ IH]; simpl; [reflexivity|].
  apply N.eqb_neq in Hc. rewrite Hc, IH. reflexivity.
Qed.

Lemma split_prefix sep p rest :
  Forall (fun c => c <> sep) p ->
  split sep (p ++ sep :: rest) = p :: split sep rest.
Proof.
  induction 1 as [|c p Hc _ IH]; simpl.
  - rewrite N.eqb_refl. reflexivity.
  - apply N.eqb_neq in Hc. rewrite Hc, IH. reflexivity.
Qed.

Lemma split0_none sep s :
  Forall (fun c => c <> sep) s -> split0 sep s = s.
Proof. intros H. unfold split0. rewrite split_none by exact H. reflexivity. Qed.

Lemma split0_prefix sep p rest :
  Forall (fun c => c <> sep) p -> split0 sep (p ++ sep :: rest) = p.
Proof.
  intros H. unfold split0. rewrite split_prefix by exact H. reflexivity.
Qed.

Lemma pad_digits w n : Forall (fun c => (48 <= c <= 57)%N) (pad w n).
Proof.
  revert n. induction w as [|w IH]; intros n; simpl; [constructor|].
  apply Forall_app. split; [apply IH|].
  constructor; [|constructor].
  assert (H : (n mod 10 < 10)%N) by (apply N.mod_upper_bound; discriminate).
  cbv beta. revert H. generalize (n mod 10)%N. intros m H. lia.
Qed.

Lemma pad_no_T w n : Forall (fun c => c <> 84%N) (pad w n).
Proof.
  eapply Forall_impl; [apply pad_digits|]. simpl. intros c H. lia.
Qed.

Lemma isoYear_no_T y : Forall (fun c => c <> 84%N) (isoYear y).
Proof.
  unfold isoYear. destruct (_ && _); [apply pad_no_T|].
  apply Forall_app. split; [|apply pad_no_T].
  destruct (y <? 0).
  - change (lit "-") with [45%N]. constructor; [discriminate|constructor].
  - change (lit "+") with [43%N]. constructor; [discriminate|constructor].
Qed.

(** The date part of the export name is the calendar date YYYY-MM-DD of
    [new Date()], in UTC. *)
Lemma date_part_is_iso_date now :
  split0 84%N (toISOString now) = iso_date now.
Proof.
  unfold toISOString, iso_date.
  repeat rewrite (app_assoc _ _ (lit "T" ++ _)).
  change (lit "T" ++ ?x) with (84%N :: x).
  apply split0_prefix.
  assert (D : Forall (fun c => c <> 84%N) (lit "-")).
  { change (lit "-") with [45%N]. constructor; [discriminate|constructor]. }
  apply Forall_app; split; [apply isoYear_no_T|].
  apply Forall_app; split; [exact D|].
  apply Forall_app; split; [apply pad_no_T|].
  apply Forall_app; split; [exact D|apply pad_no_T].
Qed.

Lemma before_last_dot_none q :
  Forall (fun c => c <> 46%N) q -> before_last_dot q = None.
Proof.
  induction 1 as [|c q Hc _ IH]; simpl; [reflexivity|].
  apply N.eqb_neq in Hc. rewrite Hc. exact IH.
Qed.

Lemma before_last_dot_prefix q r :
  Forall (fun c => c <> 46%N) q -> before_last_dot (q ++ 46%N :: r) = Some r.
Proof.
  induction 1 as [|c q Hc _ IH]; simpl; [reflexivity|].
  apply N.eqb_neq in Hc. rewrite Hc. exact IH.
Qed.

(** On a filename with no dot, or with a single dot, the name built by
    the page is the one the specification describes. *)
Lemma export_filename_up_to_one_dot (d : DocumentDetail) (now : Date)
  (stem ext : jsstring) :
  Forall (fun c => c <> 46%N) stem ->
  Forall (fun c => c <> 46%N) ext ->
  original_filename d = stem \/ original_filename d = stem ++ 46%N :: ext ->
  export_filename d now = spec_export_filename (original_filename d) now.
Proof.
  intros Hs He H.
  unfold export_filename, spec_export_filename.
  rewrite date_part_is_iso_date. do 2 f_equal.
  unfold without_extension. destruct H as [-> | ->].
  - rewrite split0_none by exact Hs.
    rewrite before_last_dot_none; [reflexivity|].
    apply Forall_rev. exact Hs.
  - rewrite split0_prefix by exact Hs.
    rewrite rev_app_distr. simpl. rewrite <- app_assoc. simpl.
    rewrite before_last_dot_prefix by (apply Forall_rev; exact He).
    rewrite rev_involutive. reflexivity.
Qed.

(** C7 fails on a filename with more than one dot.  For the document
    "Q3.report.pdf", exported on 2026-11-03, the page downloads the reply
    of [getReport] under the name "Audit-Report-Q3-2026-11-03.json": the
    name is cut at its first dot, whereas the filename without its
    extension is "Q3.report". *)
Theorem export_name_is_cut_at_first_dot :
  exists w,
    run DetailScenarios.export_two_dots (init DetailScenarios.route)
      = Some w /\
    trace w = [SetDocument (DetailScenarios.doc "Q3.report.pdf" COMPLETED);
               Download (lit "Audit-Report-Q3-2026-11-03.json") (lit "{}")]
    /\
    spec_export_filename (lit "Q3.report.pdf") DetailScenarios.noon
      = lit "Audit-Report-Q3.report-2026-11-03.json" /\
    export_filename (DetailScenarios.doc "Q3.report.pdf" COMPLETED)
                    DetailScenarios.noon
      <> spec_export_filename (lit "Q3.report.pdf") DetailScenarios.noon.
Proof.
  exists (default (blank [])
            (run DetailScenarios.export_two_dots
                 (init DetailScenarios.route))).
  vm_compute. repeat split; try reflexivity. intros H. discriminate H.
Qed.

End ExportProps.

(** ** Labels and icons *)

Module TextProps.

Lemma starts_with_prefix (p s : jsstring) :
  starts_with p s = true <-> exists post, s = p ++ post.
Proof.
  revert s. induction p as [|a p IH]; intros s; simpl.
  - split; [intros _; exists s; reflexivity | reflexivity].
  - destruct s as [|b s].
    + split; [discriminate | intros [post H]; discriminate].
    + rewrite andb_true_iff, N.eqb_eq, IH. split.
      * intros [-> [post ->]]. exists post. reflexivity.
      * intros [post H]. injection H as -> ->. split; [reflexivity|].
        exists post. reflexivity.
Qed.

(** [includes sub s] holds exactly when [sub] occurs in [s]. *)
Lemma includes_occurs (sub s : jsstring) :
  includes sub s = true <-> exists pre post, s = pre ++ sub ++ post.
Proof.
  induction s as [|c s IH]; simpl.
  - rewrite orb_false_r, starts_with_prefix. split.
    + intros [post H]. exists [], post. exact H.
    + intros (pre & post & H). destruct pre as [|x pre]; [|discriminate].
      exists post. exact H.
  - rewrite orb_true_iff, starts_with_prefix, IH. split.
    + intros [[post H]|(pre & post & H)].
      * exists [], post. exact H.
      * exists (c :: pre), post. simpl. rewrite H. reflexivity.
    + intros (pre & post & H). destruct pre as [|x pre]; simpl in H.
      * left. exists post. exact H.
      * right. injection H as _ ->. exists pre, post. reflexivity.
Qed.

Lemma replace_all_lookup pat rep (s : jsstring) (i : nat) (c : N) :
  s !! i = Some c ->
  replace_all pat rep s !! i = Some (if (c =? pat)%N then rep else c).
Proof.
  intros H. unfold replace_all.
  change (List.map ?f ?l) with (f <$> l).
  rewrite list_lookup_fmap, H. reflexivity.
Qed.

Lemma replace_all_occurrences pat rep (s : jsstring) :
  rep <> pat -> occurrences pat (replace_all pat rep s) = O.
Proof.
  intros Hne. induction s as [|c s IH]; simpl; [reflexivity|].
  rewrite IH. destruct (c =? pat)%N eqn:E.
  - apply N.eqb_neq in Hne. rewrite Hne. reflexivity.
  - rewrite E. reflexivity.
Qed.




(** The action badge of the audit trail has the length of the action,
    shows a space wherever the action has an underscore and the action's
    own character elsewhere, and contains no underscore. *)
Theorem action_label_replaces_every_underscore (a : jsstring) :
  length (ActivityPage.action_label a) = length a /\
  occurrences 95%N (ActivityPage.action_label a) = O /\
  forall (i : nat) (c : N), a !! i = Some c ->
    ActivityPage.action_label a !! i
    = Some (if (c =? 95)%N then 32%N else c).
Proof.
  unfold ActivityPage.action_label. split; [|split].
  - unfold replace_all. apply length_map.
  - apply replace_all_occurrences. discriminate.
  - intros i c. apply replace_all_lookup.
Qed.

(** [getActionIcon] is a first match on four keywords, in the order
    UPLOAD, PROCESS_COMPLETE, RESOLVE, DELETE: an action gets the icon of
    the first keyword that occurs in it, and the neutral icon exactly when
    none occurs. *)
Theorem getActionIcon_first_keyword (a : jsstring) :
  let has (kw : string) := exists pre post, a = pre ++ lit kw ++ post in
  match ActivityPage.getActionIcon a with
  | ActivityPage.FileText_blue => has "UPLOAD"%string
  | ActivityPage.CheckCircle2_green =>
      ~ has "UPLOAD"%string /\ has "PROCESS_COMPLETE"%string
  | ActivityPage.CheckCircle2_indigo =>
      ~ has "UPLOAD"%string /\ ~ has "PROCESS_COMPLETE"%string /\ has "RESOLVE"%string
  | ActivityPage.AlertCircle_red =>
      ~ has "UPLOAD"%string /\ ~ has "PROCESS_COMPLETE"%string /\ ~ has "RESOLVE"%string /\
      has "DELETE"%string
  | ActivityPage.Activity_muted =>
      ~ has "UPLOAD"%string /\ ~ has "PROCESS_COMPLETE"%string /\ ~ has "RESOLVE"%string /\
      ~ has "DELETE"%string
  end.
Proof.
  intros has. unfold ActivityPage.getActionIcon.
  assert (Y : forall kw, includes (lit kw) a = true -> has kw).
  { intros kw H. apply includes_occurs. exact H. }
  assert (N : forall kw, includes (lit kw) a = false -> ~ has kw).
  { intros kw H C. apply includes_occurs in C. congruence. }
  destruct (includes (lit "UPLOAD") a) eqn:E1; [auto|].
  destruct (includes (lit "PROCESS_COMPLETE") a) eqn:E2; [auto|].
  destruct (includes (lit "RESOLVE") a) eqn:E3; [auto|].
  destruct (includes (lit "DELETE") a) eqn:E4; auto 6.
Qed.


End TextProps.

(** ** The audit trail page *)

Module ActivityProps.
Import ActivityPage.

Lemma activity_Inv_init : Inv init.
Proof.
  split; [simpl; lia|]. exists [], {| arg_page := 1; arg_page_size := 20 |}.
  repeat split; simpl; intros H; [set_solver|lia].
Qed.

Lemma Inv_effect old st :
  Inv old -> loading old = false ->
  loading st = false -> sent st = sent old -> answered st = answered old ->
  1 <= page st ->
  Inv (effect old st).
Proof.
  intros (_ & l & c & S & P & Z & A) L0 L1 S1 A1 P1. unfold effect.
  destruct (decide (page old = page st)) as [E|NE].
  - split; [exact P1|]. exists l, c. rewrite S1, L1, <- E.
    repeat split; try assumption; rewrite L0 in A; intros H.
    + apply A. rewrite <- A1. exact H.
    + rewrite A1. apply A. exact H.
  - split; [exact P1|].
    exists (sent st), {| arg_page := page st; arg_page_size := 20 |}.
    repeat split; simpl; rewrite L0 in A; intros H.
    + rewrite S1, S, length_app. simpl. rewrite A1 in H. apply A in H. lia.
    + rewrite A1. apply A. rewrite S1, S, length_app in H. simpl in H. lia.
Qed.

Lemma activity_step_Inv e st st' : Inv st -> step e st = Some st' -> Inv st'.
Proof.
  intros I. pose proof I as (P1 & l & c & S & P & Z & A).
  destruct e as [| |k r]; simpl.
  - unfold pagination_shown.
    destruct (loading st) eqn:L; simpl; [discriminate|].
    destruct (_ && _); [|discriminate].
    intros H. injection H as <-.
    apply Inv_effect; auto. simpl. lia.
  - unfold pagination_shown.
    destruct (loading st) eqn:L; simpl; [discriminate|].
    destruct (_ && _); [|discriminate].
    intros H. injection H as <-.
    apply Inv_effect; auto. simpl. lia.
  - unfold loadLogs_settled.
    destruct (sent st !! k) as [c0|] eqn:E; [|discriminate].
    destruct (decide (k ∈ answered st)) as [|NA]; [discriminate|].
    intros H. injection H as <-.
    apply lookup_lt_Some in E. rewrite S, length_app in E. simpl in E.
    destruct (loading st) eqn:L.
    + assert (K : k = length l).
      { destruct (decide (k < length l)%nat) as [Lt|]; [|lia].
        apply A in Lt. contradiction. }
      split; [destruct r; exact P1|]. exists l, c.
      destruct r; simpl; repeat split; try assumption; intros H.
      * apply elem_of_union in H as [H|H];
          [apply elem_of_singleton in H; lia|apply A in H; lia].
      * destruct (decide (k0 = k)) as [->|]; [set_solver|].
        apply elem_of_union. right. apply A. lia.
      * apply elem_of_union in H as [H|H];
          [apply elem_of_singleton in H; lia|apply A in H; lia].
      * destruct (decide (k0 = k)) as [->|]; [set_solver|].
        apply elem_of_union. right. apply A. lia.
    + exfalso. apply NA, A. lia.
Qed.

Lemma activity_run_Inv es : forall st st', Inv st -> run es st = Some st' -> Inv st'.
Proof.
  induction es as [|e es IH]; simpl; intros st st' I H.
  - injection H as <-. exact I.
  - destruct (step e st) as [st1|] eqn:E; [|discriminate].
    eapply IH; [|exact H]. eapply activity_step_Inv; eassumption.
Qed.

Lemma activity_reachable_Inv st : reachable st -> Inv st.
Proof. intros [es H]. eapply activity_run_Inv; [apply activity_Inv_init|exact H]. Qed.

(** On the audit trail page one [listAuditLogs] call is in flight at a
    time.  A reply can only arrive while the spinner is shown and only for
    the call issued last, which asked for the page currently indicated
    with page size 20; its logs and total are then displayed, the page
    number is kept, the spinner goes, and no further reply is awaited. *)
Theorem audit_trail_reply_is_for_the_page_shown (st st' : State) (k : nat)
  (ls : list AuditLog) (n : Z) :
  reachable st ->
  step (Settle k (LogsOk ls n)) st = Some st' ->
  loading st = true /\
  S k = length (sent st) /\
  sent st !! k = Some {| arg_page := page st; arg_page_size := 20 |} /\
  logs st' = ls /\ total st' = n /\ page st' = page st /\
  loading st' = false /\
  forall j r, step (Settle j r) st' = None.
Proof.
  intros R H. pose proof (activity_reachable_Inv _ R) as (P1 & l & c & S & P & Z & A).
  assert (I' : Inv st').
  { eapply activity_step_Inv; [apply activity_reachable_Inv; exact R|exact H]. }
  simpl in H. unfold loadLogs_settled in H.
  destruct (sent st !! k) as [c0|] eqn:E; [|discriminate].
  destruct (decide (k ∈ answered st)) as [|NA]; [discriminate|].
  injection H as <-.
  pose proof (lookup_lt_Some _ _ _ E) as Lt.
  rewrite S, length_app in Lt. simpl in Lt.
  destruct (loading st) eqn:L; [|exfalso; apply NA, A; lia].
  assert (K : k = length l).
  { destruct (decide (k < length l)%nat) as [Lt'|]; [|lia].
    apply A in Lt'. contradiction. }
  split; [reflexivity|]. split; [rewrite S, length_app; simpl; lia|].
  split.
  { rewrite S in E. subst k. rewrite lookup_app_r in E by lia.
    rewrite Nat.sub_diag in E. simpl in E. injection E as <-.
    destruct c as [p z]. simpl in *. subst. reflexivity. }
  repeat split.
  intros j r. simpl.
  destruct I' as (_ & l' & c' & S' & _ & _ & A'). simpl in S', A'.
  unfold loadLogs_settled. simpl.
  destruct (sent st !! j) as [cj|] eqn:Ej; [|reflexivity].
  destruct (decide (j ∈ {[k]} ∪ answered st)) as [|NJ]; [reflexivity|].
  exfalso. apply NJ, A'. apply lookup_lt_Some in Ej.
  rewrite S' in Ej. rewrite length_app in Ej. simpl in Ej. lia.
Qed.

Lemma audit_trail_reply_is_for_the_page_shown_witness :
  let st' := default init (step (Settle 0 (LogsOk [] 45)) init) in
  loading init = true /\ total st' = 45 /\ page st' = page init /\
  loading st' = false.
Proof.
  intros st'.
  destruct (audit_trail_reply_is_for_the_page_shown init st' 0 [] 45)
    as (H1 & _ & _ & _ & H5 & H6 & H7 & _).
  - exists []. reflexivity.
  - vm_compute. reflexivity.
  - repeat split; assumption.
Defined.

End ActivityProps.

(** ** The upload page *)

Module UploadProps.
Import UploadPage.

Lemma upload_Inv_init : Inv init.
Proof.
  unfold Inv. simpl. split; [|split; [|split]]; try discriminate.
  - intros k. rewrite lookup_empty. split; [intros [x H]; discriminate|lia].
  - intros _. split; [reflexivity|]. split; [reflexivity|].
    intros k r H. rewrite lookup_empty in H. discriminate.
Qed.

(** While the drop zone is shown no upload is running. *)
Lemma dropzone_idle st : Inv st -> dropzone_shown st = true ->
  uploading st = false.
Proof.
  intros (_ & B & _) D. destruct (uploading st); [|reflexivity].
  destruct (B eq_refl) as (f & F & _). unfold dropzone_shown in D.
  rewrite F in D. discriminate.
Qed.

(** A change of [file], [error] and [isDragging] alone, made while no
    upload is running, keeps the invariant. *)
Lemma Inv_cells st st' :
  Inv st -> uploading st = false ->
  uploading st' = false -> success st' = success st ->
  sent st' = sent st -> answered st' = answered st ->
  scheduled st' = scheduled st -> pushed st' = pushed st ->
  Inv st'.
Proof.
  intros (A & B & C & D) U U' S Se An Sc Pu.
  unfold Inv. rewrite U', S, Se, An, Sc, Pu. rewrite U in A, D.
  split; [exact A|]. split; [discriminate|]. split; assumption.
Qed.

(** A reply can only be the one to the call issued last, while it is
    uploading and before any success. *)
Lemma reply_is_for_last_call st k :
  Inv st -> is_Some (sent st !! k) -> answered st !! k = None ->
  uploading st = true /\ success st = false /\ S k = length (sent st).
Proof.
  intros (A & B & C & D) [f E] N. apply lookup_lt_Some in E.
  destruct (uploading st) eqn:U.
  - split; [reflexivity|]. split.
    + destruct (success st); [|reflexivity].
      destruct (D eq_refl) as [X _]. discriminate.
    + destruct (decide (k < pred (length (sent st)))%nat) as [Lt|]; [|lia].
      apply A in Lt. rewrite N in Lt. destruct Lt. discriminate.
  - apply A in E. rewrite N in E. destruct E. discriminate.
Qed.

Lemma upload_step_Inv e st st' : Inv st -> step e st = Some st' -> Inv st'.
Proof.
  intros I. destruct e; simpl.
  - destruct (dropzone_shown st) eqn:Dz; [|discriminate].
    intros H. injection H as <-.
    pose proof (dropzone_idle _ I Dz). eapply Inv_cells; eauto.
  - destruct (dropzone_shown st) eqn:Dz; [|discriminate].
    intros H. injection H as <-.
    pose proof (dropzone_idle _ I Dz). eapply Inv_cells; eauto.
  - destruct (dropzone_shown st) eqn:Dz; [|discriminate].
    intros H. injection H as <-.
    pose proof (dropzone_idle _ I Dz).
    destruct files; eapply Inv_cells; eauto.
  - destruct (dropzone_shown st) eqn:Dz; [|discriminate].
    intros H. injection H as <-.
    pose proof (dropzone_idle _ I Dz).
    destruct files; eapply Inv_cells; eauto.
  - unfold remove_enabled.
    destruct (dropzone_shown st); simpl; [discriminate|].
    destruct (uploading st) eqn:U; simpl; [discriminate|].
    intros H. injection H as <-. eapply Inv_cells; eauto.
  - unfold upload_enabled, dropzone_shown, handleUpload.
    destruct (file st) as [f|] eqn:F; simpl; [|discriminate].
    destruct (uploading st) eqn:U; simpl; [discriminate|].
    destruct (success st) eqn:S; simpl; [discriminate|].
    intros H. injection H as <-.
    destruct I as (A & B & C & D). rewrite U in A. rewrite S in C, D.
    unfold Inv. simpl. rewrite S.
    split; [|split; [|split]]; try discriminate.
    + intros k. rewrite length_app. simpl.
      replace (pred (length (sent st) + 1)) with (length (sent st)) by lia.
      apply A.
    + intros _. exists f. split; [exact F|apply last_snoc].
    + intros _. apply C. reflexivity.
  - unfold handleUpload_settled.
    destruct (sent st !! k) as [f|] eqn:E; [|discriminate].
    destruct (answered st !! k) eqn:N; [discriminate|].
    intros H. injection H as <-.
    destruct (reply_is_for_last_call st k I) as (U & S & K); eauto.
    destruct I as (A & B & C & D). rewrite U in A.
    destruct (C S) as (Sc & Pu & Fa).
    assert (A' : forall k0, is_Some (<[k := r]> (answered st) !! k0) <->
                            (k0 < length (sent st))%nat).
    { intros k0. destruct (decide (k = k0)) as [<-|Ne].
      - rewrite lookup_insert_eq. split; [lia|eauto].
      - rewrite lookup_insert_ne by exact Ne. rewrite A. lia. }
    unfold Inv. destruct r as [i|e]; simpl.
    + split; [exact A'|]. split; [discriminate|]. split; [discriminate|].
      intros _. split; [reflexivity|]. exists k, i.
      rewrite lookup_insert_eq, Sc, Pu. split; [reflexivity|]. left.
      split; reflexivity.
    + rewrite S. split; [exact A'|]. split; [discriminate|].
      split; [|discriminate].
      intros _. split; [exact Sc|]. split; [exact Pu|].
      intros k0 r0. destruct (decide (k = k0)) as [<-|Ne].
      * rewrite lookup_insert_eq. intros H. injection H as <-. reflexivity.
      * rewrite lookup_insert_ne by exact Ne. apply Fa.
  - unfold fire.
    destruct (scheduled st !! j) as [t|] eqn:E; [|discriminate].
    intros H. injection H as <-.
    destruct I as (A & B & C & D).
    destruct (success st) eqn:S.
    + destruct (D eq_refl) as (U & k & i & An & [[Sc Pu]|[Sc Pu]]).
      * rewrite Sc in E. destruct j as [|j]; [|discriminate].
        injection E as <-.
        unfold Inv. simpl. rewrite U, Sc, Pu. rewrite U in A.
        split; [exact A|]. split; [discriminate|]. split; [discriminate|].
        intros _. split; [reflexivity|]. exists k, i.
        split; [exact An|]. right. split; reflexivity.
      * rewrite Sc in E. discriminate.
    + destruct (C eq_refl) as (Sc & _). rewrite Sc in E. discriminate.
Qed.

Lemma upload_run_Inv es : forall st st', Inv st -> run es st = Some st' -> Inv st'.
Proof.
  induction es as [|e es IH]; simpl; intros st st' I H.
  - injection H as <-. exact I.
  - destruct (step e st) as [st1|] eqn:E; [|discriminate].
    eapply IH; [|exact H]. eapply upload_step_Inv; eassumption.
Qed.

Lemma upload_reachable_Inv st : reachable st -> Inv st.
Proof. intros [es H]. eapply upload_run_Inv; [apply upload_Inv_init|exact H]. Qed.

(** Uploads never overlap and a visit redirects at most once: only the
    call issued last can be unanswered, and only while the page says it is
    uploading; at most one redirect is ever armed or pushed, and its target
    is [/documents/] followed by the id a successful upload returned; once
    an upload has succeeded the confirm button stays disabled. *)
Theorem uploads_never_overlap_and_redirect_once (st : State) :
  reachable st ->
  (forall k, (S k < length (sent st))%nat -> is_Some (answered st !! k)) /\
  (uploading st = false ->
   forall k, (k < length (sent st))%nat -> is_Some (answered st !! k)) /\
  (length (scheduled st) + length (pushed st) <= 1)%nat /\
  (forall t, In t (scheduled st ++ pushed st) ->
     exists k i, answered st !! k = Some (UploadOk i) /\
                 t = lit "/documents/" ++ i) /\
  (success st = true -> step ClickUpload st = None).
Proof.
  intros R. destruct (upload_reachable_Inv _ R) as (A & B & C & D).
  split; [|split; [|split; [|split]]].
  - intros k Lt. apply A. destruct (uploading st); lia.
  - intros U k Lt. apply A. rewrite U. exact Lt.
  - destruct (success st).
    + destruct (D eq_refl) as (_ & k & i & _ & [[-> ->]|[-> ->]]);
        simpl; lia.
    + destruct (C eq_refl) as (-> & -> & _). simpl. lia.
  - intros t Ht. destruct (success st).
    + destruct (D eq_refl) as (_ & k & i & An & [[Sc Pu]|[Sc Pu]]);
        rewrite Sc, Pu in Ht; simpl in Ht; destruct Ht as [<-|[]];
        exists k, i; split; auto.
    + destruct (C eq_refl) as (Sc & Pu & _). rewrite Sc, Pu in Ht.
      destruct Ht.
  - intros S. simpl. unfold upload_enabled. rewrite S, orb_true_r, andb_false_r.
    reflexivity.
Qed.

(** After a failed upload the file is still selected, the message of the
    error is shown, and the confirm button is enabled again: a click
    sends the same file once more. *)
Theorem failed_upload_can_be_repeated (st st' : State) (k : nat)
  (e : ApiError) :
  reachable st ->
  step (Settle k (Failed e)) st = Some st' ->
  exists f,
    sent st !! k = Some f /\ file st' = Some f /\
    error st' = message e /\ uploading st' = false /\
    success st' = false /\
    exists st'', step ClickUpload st' = Some st'' /\
                 sent st'' = sent st' ++ [f] /\ error st'' = [].
Proof.
  intros R H. pose proof (upload_reachable_Inv _ R) as I.
  simpl in H. unfold handleUpload_settled in H.
  destruct (sent st !! k) as [f|] eqn:E; [|discriminate].
  destruct (answered st !! k) eqn:N; [discriminate|].
  injection H as <-.
  destruct (reply_is_for_last_call st k I) as (U & S & K); eauto.
  destruct I as (_ & B & _). destruct (B U) as (f' & F & L).
  assert (f' = f).
  { rewrite last_lookup in L. rewrite <- K in L. simpl in L. congruence. }
  subst f'. exists f. simpl. repeat split; try assumption.
  exists (handleUpload (setUploading false
                          (setError (message e) (mark k (Failed e) st)))).
  unfold upload_enabled, dropzone_shown, handleUpload. simpl.
  rewrite F, S. simpl. repeat split.
Qed.

(** The page checks neither size nor type: with the drop zone shown and
    no earlier success, the first file of a drop, whatever its name, size
    and type, is selected with the error cleared and is sent as it is by
    the confirm button; further files of the drop are ignored. *)
Theorem any_dropped_file_is_uploaded (st : State) (f : File)
  (others : list File) :
  reachable st ->
  dropzone_shown st = true ->
  success st = false ->
  exists st',
    run [Drop (f :: others); ClickUpload] st = Some st' /\
    file st' = Some f /\ uploading st' = true /\
    sent st' = sent st ++ [f].
Proof.
  intros R D S. pose proof (dropzone_idle _ (upload_reachable_Inv _ R) D) as U.
  simpl. rewrite D. unfold upload_enabled, dropzone_shown. simpl.
  rewrite U, S. simpl. eexists. split; [reflexivity|].
  simpl. repeat split.
Qed.

Lemma uploads_never_overlap_and_redirect_once_witness :
  let f := {| name := lit "q3.pdf"; size := 2048;
              mime := lit "application/pdf" |} in
  let st := default init
              (run [Drop [f]; ClickUpload; Settle 0 (UploadOk (lit "d7"));
                    Fire 0] init) in
  pushed st = [lit "/documents/d7"] /\
  (length (scheduled st) + length (pushed st) <= 1)%nat /\
  step ClickUpload st = None.
Proof.
  intros f st. split; [vm_compute; reflexivity|].
  destruct (uploads_never_overlap_and_redirect_once st)
    as (_ & _ & H3 & _ & H5).
  - exists [Drop [f]; ClickUpload; Settle 0 (UploadOk (lit "d7")); Fire 0].
    vm_compute. reflexivity.
  - split; [exact H3|]. apply H5. vm_compute. reflexivity.
Defined.

Lemma failed_upload_can_be_repeated_witness :
  let f := {| name := lit "q3.pdf"; size := 2048;
              mime := lit "application/pdf" |} in
  let st := default init (run [Drop [f]; ClickUpload] init) in
  let st' := default init
               (step (Settle 0 (Failed Scenarios.timeout)) st) in
  exists g,
    sent st !! 0%nat = Some g /\ file st' = Some g /\
    error st' = message Scenarios.timeout /\ uploading st' = false /\
    success st' = false /\
    exists st'', step ClickUpload st' = Some st'' /\
                 sent st'' = sent st' ++ [g] /\ error st'' = [].
Proof.
  intros f st st'.
  apply (failed_upload_can_be_repeated st st' 0 Scenarios.timeout).
  - exists [Drop [f]; ClickUpload]. vm_compute. reflexivity.
  - vm_compute. reflexivity.
Defined.

Lemma any_dropped_file_is_uploaded_witness :
  let big := {| name := lit "video.mov"; size := 900000000;
                mime := lit "video/quicktime" |} in
  exists st',
    run [Drop [big]; ClickUpload] init = Some st' /\
    file st' = Some big /\ uploading st' = true /\
    sent st' = sent init ++ [big].
Proof.
  intros big. apply (any_dropped_file_is_uploaded init big []).
  - exists []. reflexivity.
  - reflexivity.
  - reflexivity.
Defined.

End UploadProps.

(** ** More on the search page *)

Module SearchMore.
Import SearchPage.

Lemma step_sent_not_blank e st st' :
  step e st = Some st' ->
  Forall (fun q => forallb is_white_space q = false) (sent st) ->
  Forall (fun q => forallb is_white_space q = false) (sent st').
Proof.
  destruct e as [q| |k r]; simpl; intros H Inv.
  - injection H as <-. exact Inv.
  - injection H as <-. unfold handleSearch.
    destruct (trim (query st)) as [|c t] eqn:T; simpl; [exact Inv|].
    apply Forall_app. split; [exact Inv|]. constructor; [|constructor].
    destruct (forallb is_white_space (query st)) eqn:B; [|reflexivity].
    apply trim_nil in B. congruence.
  - unfold handleSearch_settled in H.
    destruct (sent st !! k); [|discriminate].
    destruct (decide (k ∈ answered st)); [discriminate|].
    injection H as <-. exact Inv.
Qed.

(** No [search] call ever carries an empty or white-space-only query,
    whatever is typed and however often the form is submitted. *)
Theorem no_blank_query_reaches_the_network (st : State) :
  reachable st ->
  Forall (fun q => forallb is_white_space q = false) (sent st).
Proof.
  intros [es H]. revert H.
  assert (G : forall es s s', run es s = Some s' ->
            Forall (fun q => forallb is_white_space q = false) (sent s) ->
            Forall (fun q => forallb is_white_space q = false) (sent s')).
  { clear. induction es as [|e es IH]; simpl; intros s s' H I.
    - injection H as <-. exact I.
    - destruct (step e s) as [s1|] eqn:E; [|discriminate].
      eapply IH; [exact H|]. eapply step_sent_not_blank; eassumption. }
  intros H. eapply G; [exact H|]. constructor.
Qed.

(** A failed search is written to the console only: the spinner goes and
    the results of the previous successful search, if any, stay
    displayed under the query typed. *)
Theorem failed_search_keeps_previous_results (st st' : State) (k : nat)
  (e : ApiError) :
  reachable st ->
  step (Settle k (SearchFailed e)) st = Some st' ->
  results st' = results st /\ query st' = query st /\
  loading st' = false /\ displayed st' = results st.
Proof.
  intros R. simpl. unfold handleSearch_settled.
  destruct (sent st !! k) as [q|] eqn:L; [|discriminate].
  destruct (decide (k ∈ answered st)); [discriminate|].
  intros H. injection H as <-.
  assert (S : searched st = true).
  { apply SearchProps.reachable_searched; [exact R|].
    intros N. rewrite N in L. discriminate. }
  unfold displayed. simpl. rewrite S. repeat split.
Qed.

Lemma no_blank_query_reaches_the_network_witness :
  let st := default init
              (run (Scenarios.search_blank ++ [Submit]
                    ++ Scenarios.search_submitted) init) in
  sent st = [lit "total net income Q3"] /\
  Forall (fun q => forallb is_white_space q = false) (sent st).
Proof.
  intros st. split; [vm_compute; reflexivity|].
  apply (no_blank_query_reaches_the_network st).
  exists (Scenarios.search_blank ++ [Submit] ++ Scenarios.search_submitted).
  vm_compute. reflexivity.
Defined.

Lemma failed_search_keeps_previous_results_witness :
  let st := default init
              (run (Scenarios.search_submitted
                    ++ [Settle 0 (SearchOk Scenarios.hits); Submit]) init) in
  let st' := default init
               (step (Settle 1 (SearchFailed Scenarios.timeout)) st) in
  results st = Scenarios.hits /\
  results st' = results st /\ query st' = query st /\
  loading st' = false /\ displayed st' = results st.
Proof.
  intros st st'. split; [vm_compute; reflexivity|].
  apply (failed_search_keeps_previous_results st st' 1 Scenarios.timeout).
  - exists (Scenarios.search_submitted
            ++ [Settle 0 (SearchOk Scenarios.hits); Submit]).
    vm_compute. reflexivity.
  - vm_compute. reflexivity.
Defined.

End SearchMore.

(** ** More on the alerts page *)

Module AlertsMore.
Import AlertsPage.

(** A successful [resolveAlert] replaces the list by the alerts that were
    listed when the button was clicked, without those carrying the
    resolved id and in the same order; a failed one is written to the
    console only and changes neither the list nor the error banner. *)
Theorem resolve_filters_the_list_of_the_click (st st' : State) (k : nat)
  (i n : jsstring) (al : list Alert) (r : Reply) :
  sent st !! k = Some {| call := resolveAlert i n; closure_alerts := al |} ->
  step (Settle k r) st = Some st' ->
  match r with
  | VoidOk =>
      alerts st' = List.filter (fun a => negb (id_eqb (id a) i)) al /\
      (forall a, In a (alerts st') <-> In a al /\ id a <> i) /\
      error st' = error st /\ loading st' = loading st
  | Failed _ =>
      alerts st' = alerts st /\ error st' = error st /\
      loading st' = loading st
  | AlertsOk _ => False
  end.
Proof.
  intros L. simpl. unfold settled. rewrite L.
  destruct (decide (k ∈ answered st)); [discriminate|].
  destruct r; simpl; try discriminate; intros H; injection H as <-; simpl.
  - split; [reflexivity|]. split; [|split; reflexivity].
    intros a. rewrite filter_In. unfold id_eqb.
    destruct (decide (id a = i)); simpl; intuition congruence.
  - repeat split.
Qed.

Lemma sent_loadAlerts st :
  sent (loadAlerts st)
  = sent st ++ [{| call := listAlerts (if truthy (filter st)
                                       then Some (filter st) else None)
                                      false;
                   closure_alerts := alerts st |}].
Proof. reflexivity. Qed.

(** The page only ever asks for unresolved alerts, and never sends an
    empty risk level: with "All Priorities" selected the level is left
    out. *)
Theorem alerts_page_lists_unresolved_only (st : State) :
  reachable st ->
  Forall (fun p => match call p with
                   | listAlerts lvl res => res = false /\ lvl <> Some []
                   | resolveAlert _ _ => True
                   end) (sent st).
Proof.
  intros [es H]. revert H.
  set (P := fun p => match call p with
                     | listAlerts lvl res => res = false /\ lvl <> Some []
                     | resolveAlert _ _ => True
                     end).
  assert (L : forall s, Forall P (sent s) -> Forall P (sent (loadAlerts s))).
  { intros s I. rewrite sent_loadAlerts. apply Forall_app. split; [exact I|].
    constructor; [|constructor]. unfold P. simpl. split; [reflexivity|].
    destruct (filter s); simpl; intros X; discriminate X. }
  assert (G : forall evs s s', run evs s = Some s' ->
                               Forall P (sent s) -> Forall P (sent s')).
  { intros evs. induction evs as [|e evs IH]; simpl; intros s s' H I.
    - injection H as <-. exact I.
    - destruct (step e s) as [s1|] eqn:E; [|discriminate].
      eapply IH; [exact H|]. clear IH H. destruct e as [f|b i|k r]; simpl in E.
      + destruct (decide (f = filter s)); injection E as <-; [exact I|].
        apply L. exact I.
      + destruct (card_shown i s); [|discriminate]. injection E as <-.
        destruct b; simpl; (apply Forall_app; split; [exact I|]);
          constructor; try constructor; exact Logic.I.
      + unfold settled in E.
        destruct (sent s !! k) as [p|]; [|discriminate].
        destruct (decide (k ∈ answered s)); [discriminate|].
        destruct (call p), r; try discriminate; injection E as <-; exact I. }
  intros H. eapply G; [exact H|]. apply (L {| alerts := []; loading := true;
    error := []; filter := []; sent := []; answered := ∅ |}). constructor.
Qed.

Lemma resolve_filters_the_list_of_the_click_witness :
  let st := default init (run Scenarios.alerts_resolved_twice init) in
  let st' := default init
               (run (Scenarios.alerts_resolved_twice
                     ++ [Settle 1 VoidOk; Settle 2 VoidOk]) init) in
  let st1 := default init
               (run (Scenarios.alerts_resolved_twice ++ [Settle 1 VoidOk])
                    init) in
  alerts st1 = [Scenarios.alert "a2"] /\
  alerts st' = [Scenarios.alert "a1"] /\
  (forall a, In a (alerts st') <->
             In a [Scenarios.alert "a1"; Scenarios.alert "a2"]
             /\ id a <> lit "a2").
Proof.
  intros st st' st1. split; [vm_compute; reflexivity|].
  split; [vm_compute; reflexivity|].
  destruct (resolve_filters_the_list_of_the_click st1 st' 2 (lit "a2")
              resolve_notes [Scenarios.alert "a1"; Scenarios.alert "a2"]
              VoidOk) as (_ & H & _).
  - vm_compute. reflexivity.
  - vm_compute. reflexivity.
  - exact H.
Defined.

Lemma alerts_page_lists_unresolved_only_witness :
  let st := default init
              (run [SelectFilter (lit "HIGH"); SelectFilter []] init) in
  List.map call (sent st)
  = [listAlerts None false; listAlerts (Some (lit "HIGH")) false;
     listAlerts None false] /\
  Forall (fun p => match call p with
                   | listAlerts lvl res => res = false /\ lvl <> Some []
                   | resolveAlert _ _ => True
                   end) (sent st).
Proof.
  intros st. split; [vm_compute; reflexivity|].
  apply (alerts_page_lists_unresolved_only st).
  exists [SelectFilter (lit "HIGH"); SelectFilter []].
  vm_compute. reflexivity.
Defined.

End AlertsMore.

(** ** More on the documents listing page *)

Module DocumentsMore.
Import DocumentsPage.

(** The call [loadDocuments] would issue in this state. *)
Lemma sent_loadDocuments st :
  sent (loadDocuments st)
  = sent st ++ [{| arg_page := page st; arg_page_size := 20;
                   arg_status := if truthy (filter st)
                                 then Some (filter st) else None |}].
Proof. reflexivity. Qed.

Lemma step_latest e st st' :
  step e st = Some st' ->
  last (sent st) = Some {| arg_page := page st; arg_page_size := 20;
                           arg_status := if truthy (filter st)
                                         then Some (filter st) else None |} ->
  last (sent st') = Some {| arg_page := page st'; arg_page_size := 20;
                            arg_status := if truthy (filter st')
                                          then Some (filter st') else None |}.
Proof.
  assert (E : forall old s,
    sent s = sent old ->
    last (sent old) = Some {| arg_page := page old; arg_page_size := 20;
                              arg_status := if truthy (filter old)
                                            then Some (filter old)
                                            else None |} ->
    last (sent (effect old s))
    = Some {| arg_page := page (effect old s); arg_page_size := 20;
              arg_status := if truthy (filter (effect old s))
                            then Some (filter (effect old s)) else None |}).
  { intros old s S I. unfold effect.
    destruct (decide (filter old = filter s /\ page old = page s))
      as [[F P]|_].
    - rewrite S, <- F, <- P. exact I.
    - rewrite sent_loadDocuments. apply last_snoc. }
  destruct e as [f| | |k r]; simpl; intros H I.
  - injection H as <-. apply E; [reflexivity|exact I].
  - destruct (_ && _); [|discriminate]. injection H as <-.
    apply E; [reflexivity|exact I].
  - destruct (_ && _); [|discriminate]. injection H as <-.
    apply E; [reflexivity|exact I].
  - unfold loadDocuments_settled in H.
    destruct (sent st !! k); [|discriminate].
    destruct (decide (k ∈ answered st)); [discriminate|].
    injection H as <-. destruct r; exact I.
Qed.

Lemma step_well_formed e st st' :
  step e st = Some st' -> 1 <= page st ->
  Forall (fun c => arg_page_size c = 20 /\ 1 <= arg_page c /\
                   arg_status c <> Some []) (sent st) ->
  Forall (fun c => arg_page_size c = 20 /\ 1 <= arg_page c /\
                   arg_status c <> Some []) (sent st').
Proof.
  set (P := fun c => arg_page_size c = 20 /\ 1 <= arg_page c /\
                     arg_status c <> Some []).
  assert (E : forall old s, 1 <= page s -> Forall P (sent s) ->
                            Forall P (sent (effect old s))).
  { intros old s Pg I. unfold effect. destruct (decide _); [exact I|].
    rewrite sent_loadDocuments. apply Forall_app. split; [exact I|].
    constructor; [|constructor]. unfold P. simpl.
    split; [reflexivity|]. split; [exact Pg|].
    destruct (filter s); simpl; intros X; discriminate X. }
  destruct e as [f| | |k r]; simpl; intros H Pg I.
  - injection H as <-. apply E; [exact Pg|exact I].
  - destruct (_ && _); [|discriminate]. injection H as <-.
    apply E; [simpl; lia|exact I].
  - destruct (_ && _); [|discriminate]. injection H as <-.
    apply E; [simpl; lia|exact I].
  - unfold loadDocuments_settled in H.
    destruct (sent st !! k); [|discriminate].
    destruct (decide (k ∈ answered st)); [discriminate|].
    injection H as <-. destruct r; exact I.
Qed.

(** Every [listDocuments] call asks for a page of 20, for a page number
    of at least 1, and never for an empty status (with "All Statuses" the
    status is left out); and the call issued last is always the one for
    the filter and the page the page currently holds. *)
Theorem listing_calls_follow_filter_and_page (st : State) :
  reachable st ->
  Forall (fun c => arg_page_size c = 20 /\ 1 <= arg_page c /\
                   arg_status c <> Some []) (sent st) /\
  last (sent st) = Some {| arg_page := page st; arg_page_size := 20;
                           arg_status := if truthy (filter st)
                                         then Some (filter st) else None |}.
Proof.
  intros [es H]. revert H.
  assert (G : forall evs s s', run evs s = Some s' ->
    1 <= page s /\
    Forall (fun c => arg_page_size c = 20 /\ 1 <= arg_page c /\
                     arg_status c <> Some []) (sent s) /\
    last (sent s) = Some {| arg_page := page s; arg_page_size := 20;
                            arg_status := if truthy (filter s)
                                          then Some (filter s) else None |} ->
    Forall (fun c => arg_page_size c = 20 /\ 1 <= arg_page c /\
                     arg_status c <> Some []) (sent s') /\
    last (sent s') = Some {| arg_page := page s'; arg_page_size := 20;
                             arg_status := if truthy (filter s')
                                           then Some (filter s')
                                           else None |}).
  { intros evs. induction evs as [|e evs IH]; simpl;
      intros s s' H (Pg & W & L).
    - injection H as <-. split; assumption.
    - destruct (step e s) as [s1|] eqn:E; [|discriminate].
      eapply IH; [exact H|]. split; [|split].
      + eapply DocumentsProps.step_page_ge_1; eassumption.
      + eapply step_well_formed; eassumption.
      + eapply step_latest; eassumption. }
  intros H. eapply G; [exact H|]. simpl. split; [lia|]. split.
  - constructor; [|constructor]. simpl. split; [reflexivity|].
    split; [lia|intros X; discriminate X].
  - reflexivity.
Qed.

Lemma step_spinner e st st' :
  step e st = Some st' ->
  (forall k, k ∈ answered st -> (k < length (sent st))%nat) /\
  (loading st = true ->
   exists k, (k < length (sent st))%nat /\ k ∉ answered st) ->
  (forall k, k ∈ answered st' -> (k < length (sent st'))%nat) /\
  (loading st' = true ->
   exists k, (k < length (sent st'))%nat /\ k ∉ answered st').
Proof.
  assert (E : forall old s,
    (forall k, k ∈ answered s -> (k < length (sent s))%nat) /\
    (loading s = true ->
     exists k, (k < length (sent s))%nat /\ k ∉ answered s) ->
    (forall k, k ∈ answered (effect old s)
               -> (k < length (sent (effect old s)))%nat) /\
    (loading (effect old s) = true ->
     exists k, (k < length (sent (effect old s)))%nat
               /\ k ∉ answered (effect old s))).
  { intros old s [B S]. unfold effect. destruct (decide _); [split; assumption|].
    rewrite sent_loadDocuments, length_app. simpl. split.
    - intros k Hk. apply B in Hk. lia.
    - intros _. exists (length (sent s)). split; [lia|].
      intros Hk. apply B in Hk. lia. }
  destruct e as [f| | |k r]; simpl; intros H I.
  - injection H as <-. apply E. exact I.
  - destruct (_ && _); [|discriminate]. injection H as <-. apply E. exact I.
  - destruct (_ && _); [|discriminate]. injection H as <-. apply E. exact I.
  - unfold loadDocuments_settled in H.
    destruct (sent st !! k) as [c|] eqn:L; [|discriminate].
    destruct (decide (k ∈ answered st)); [discriminate|].
    injection H as <-. destruct I as [B _].
    apply lookup_lt_Some in L.
    destruct r; simpl; (split; [|discriminate]); intros k0 Hk;
      (apply elem_of_union in Hk as [Hk|Hk];
       [apply elem_of_singleton in Hk; lia|apply B; exact Hk]).
Qed.

(** Whenever the listing shows its spinner, some [listDocuments] call is
    still unanswered: the reply to it will take the spinner away. *)
Theorem listing_spinner_awaits_a_reply (st : State) :
  reachable st ->
  loading st = true ->
  exists k c, sent st !! k = Some c /\ k ∉ answered st.
Proof.
  intros [es H] Ld.
  assert (G : forall es s s', run es s = Some s' ->
    (forall k, k ∈ answered s -> (k < length (sent s))%nat) /\
    (loading s = true ->
     exists k, (k < length (sent s))%nat /\ k ∉ answered s) ->
    (forall k, k ∈ answered s' -> (k < length (sent s'))%nat) /\
    (loading s' = true ->
     exists k, (k < length (sent s'))%nat /\ k ∉ answered s')).
  { clear. induction es as [|e es IH]; simpl; intros s s' H I.
    - injection H as <-. exact I.
    - destruct (step e s) as [s1|] eqn:E; [|discriminate].
      eapply IH; [exact H|]. eapply step_spinner; eassumption. }
  destruct (G _ _ _ H) as [_ S].
  { simpl. split; [intros k Hk; set_solver|].
    intros _. exists 0%nat. split; [lia|set_solver]. }
  destruct (S Ld) as (k & Lt & N).
  destruct (lookup_lt_is_Some_2 _ _ Lt) as [c Hc]. exists k, c. auto.
Qed.

(** The error banner of the listing is never taken down: no click, no
    filter change and no successful reply changes the error text. *)
Theorem listing_error_is_never_cleared (es : list Event) (st st' : State) :
  Forall (fun e => forall k x, e <> Settle k (Failed x)) es ->
  run es st = Some st' ->
  error st' = error st.
Proof.
  revert st. induction es as [|e es IH]; simpl; intros st N H.
  - injection H as <-. reflexivity.
  - destruct (step e st) as [s1|] eqn:E; [|discriminate].
    apply Forall_cons in N as [N1 N2].
    rewrite (IH _ N2 H). clear IH H N2.
    assert (Ef : forall old s, error (effect old s) = error s).
    { intros old s. unfold effect. destruct (decide _); reflexivity. }
    destruct e as [f| | |k r]; simpl in E.
    + injection E as <-. rewrite Ef. reflexivity.
    + destruct (_ && _); [|discriminate]. injection E as <-.
      rewrite Ef. reflexivity.
    + destruct (_ && _); [|discriminate]. injection E as <-.
      rewrite Ef. reflexivity.
    + unfold loadDocuments_settled in E.
      destruct (sent st !! k); [|discriminate].
      destruct (decide (k ∈ answered st)); [discriminate|].
      injection E as <-. destruct r as [ds tot|x]; [reflexivity|].
      exfalso. apply (N1 k x). reflexivity.
Qed.

Lemma listing_calls_follow_filter_and_page_witness :
  let st := default init
              (run (Scenarios.first_page_listed
                    ++ [ClickNext; SelectFilter (lit "FAILED")]) init) in
  sent st
  = [{| arg_page := 1; arg_page_size := 20; arg_status := None |};
     {| arg_page := 2; arg_page_size := 20; arg_status := None |};
     {| arg_page := 2; arg_page_size := 20;
        arg_status := Some (lit "FAILED") |}] /\
  last (sent st)
  = Some {| arg_page := page st; arg_page_size := 20;
            arg_status := if truthy (filter st)
                          then Some (filter st) else None |}.
Proof.
  intros st. split; [vm_compute; reflexivity|].
  apply (listing_calls_follow_filter_and_page st).
  exists (Scenarios.first_page_listed
          ++ [ClickNext; SelectFilter (lit "FAILED")]).
  vm_compute. reflexivity.
Defined.

Lemma listing_spinner_awaits_a_reply_witness :
  exists k c, sent init !! k = Some c /\ k ∉ answered init.
Proof.
  apply (listing_spinner_awaits_a_reply init).
  - exists []. reflexivity.
  - reflexivity.
Defined.

Lemma listing_error_is_never_cleared_witness :
  let st := default init
              (run [Settle 0 (Failed Scenarios.timeout)] init) in
  let st' := default init
               (run [SelectFilter (lit "FAILED");
                     Settle 1 (ListOk [Scenarios.listed "a"] 1)] st) in
  error st = lit "Network timeout" /\ documents st' <> [] /\
  error st' = error st.
Proof.
  intros st st'. split; [vm_compute; reflexivity|].
  split; [vm_compute; discriminate|].
  apply (listing_error_is_never_cleared
           [SelectFilter (lit "FAILED");
            Settle 1 (ListOk [Scenarios.listed "a"] 1)] st st').
  - repeat constructor; intros k x H; discriminate H.
  - vm_compute. reflexivity.
Defined.

End DocumentsMore.

(** ** More on the document detail page *)

Module DetailMoreProps.
Import DetailPage DetailMore.

(** *** Counting what is in flight *)

Lemma pending_from_app P n l l' ans :
  pending_from P n (l ++ l') ans
  = (pending_from P n l ans + pending_from P (n + length l) l' ans)%nat.
Proof.
  revert n. induction l as [|p l IH]; intros n; simpl.
  - f_equal. lia.
  - rewrite IH. replace (S n + length l)%nat with (n + S (length l))%nat by lia.
    lia.
Qed.

Lemma pending_from_insert_before P n l k r (ans : gmap nat Reply) :
  (k < n)%nat ->
  pending_from P n l (<[k := r]> ans) = pending_from P n l ans.
Proof.
  revert n. induction l as [|p l IH]; intros n Lt; simpl; [reflexivity|].
  rewrite lookup_insert_ne by lia. rewrite IH by lia. reflexivity.
Qed.

Lemma pending_from_insert P n (l : list Pending) j p r
  (ans : gmap nat Reply) :
  l !! j = Some p -> ans !! (n + j)%nat = None ->
  (pending_from P n l (<[(n + j)%nat := r]> ans)
   + (if P p then 1 else 0))%nat
  = pending_from P n l ans.
Proof.
  revert n j. induction l as [|q l IH]; intros n j L N; [discriminate|].
  destruct j as [|j]; simpl in *.
  - injection L as ->. rewrite Nat.add_0_r in *.
    rewrite lookup_insert_eq, N, andb_false_r, andb_true_r.
    rewrite pending_from_insert_before by lia. lia.
  - rewrite lookup_insert_ne by lia.
    replace (n + S j)%nat with (S n + j)%nat in * by lia.
    rewrite <- (IH (S n) j L N). lia.
Qed.

(** A call just made is unanswered. *)
Lemma pending_snoc P (l : list Pending) p (ans : gmap nat Reply) :
  (forall k, is_Some (ans !! k) -> (k < length l)%nat) ->
  pending_from P 0 (l ++ [p]) ans
  = (pending_from P 0 l ans + (if P p then 1 else 0))%nat.
Proof.
  intros B. rewrite pending_from_app. simpl.
  destruct (ans !! length l) eqn:E.
  - assert (length l < length l)%nat by (apply B; eauto). lia.
  - rewrite andb_true_r. lia.
Qed.

(** A reply takes its call out of the count. *)
Lemma pending_answer P (l : list Pending) k p r (ans : gmap nat Reply) :
  l !! k = Some p -> ans !! k = None ->
  (pending_from P 0 l (<[k := r]> ans) + (if P p then 1 else 0))%nat
  = pending_from P 0 l ans.
Proof. intros L N. apply (pending_from_insert P 0 l k p r ans L N). Qed.

Lemma bound_answer (l : list Pending) k p r (ans : gmap nat Reply) :
  l !! k = Some p ->
  (forall j, is_Some (ans !! j) -> (j < length l)%nat) ->
  forall j, is_Some (<[k := r]> ans !! j) -> (j < length l)%nat.
Proof.
  intros L B j. destruct (decide (k = j)) as [<-|Ne].
  - intros _. eapply lookup_lt_Some. exact L.
  - rewrite lookup_insert_ne by exact Ne. apply B.
Qed.

Lemma bound_snoc (l : list Pending) p (ans : gmap nat Reply) :
  (forall j, is_Some (ans !! j) -> (j < length l)%nat) ->
  forall j, is_Some (ans !! j) -> (j < length (l ++ [p]))%nat.
Proof. intros B j H. rewrite length_app. apply B in H. lia. Qed.

(** *** State setters on a mounted and on an unmounted component *)

Lemma update_mounted f w :
  mounted w = true -> update f w = with_view (f (view w)) w.
Proof. intros M. unfold update. rewrite M. reflexivity. Qed.

Lemma update_unmounted f w : mounted w = false -> update f w = w.
Proof. intros M. unfold update. rewrite M. reflexivity. Qed.

Lemma mounted_update f w : mounted (update f w) = mounted w.
Proof. unfold update. destruct (mounted w) eqn:M; simpl; congruence. Qed.

Lemma pollingEffect_id w : id (pollingEffect w) = id w.
Proof.
  unfold pollingEffect.
  destruct (status_of w) as [[]|], (pollingInterval w); reflexivity.
Qed.

Lemma commit_id old w : id (commit old w) = id w.
Proof. unfold commit. destruct (_ && _); [apply pollingEffect_id|reflexivity]. Qed.

Lemma Guards_ext w w' :
  id w' = id w -> view w' = view w -> mounted w' = mounted w ->
  sent w' = sent w -> answered w' = answered w ->
  Guards w -> Guards w'.
Proof.
  intros I V M S A. unfold Guards, unanswered.
  rewrite I, V, M, S, A. tauto.
Qed.

Ltac expand_handlers :=
  unfold loadDocument_settled, handleExportReport_settled,
         handleRetry_settled, handleDelete_settled,
         handleResolveAlert_settled, handleRetry, handleDelete,
         handleExportReport, handleResolveAlert, loadDocument,
         setDocument, setError, setLoading, setRetrying, setResolvingId,
         setResolutionNotes, setIsExporting, clearInterval in *.

Ltac settle_updates M :=
  repeat (first
    [ rewrite update_mounted
        by (repeat (simpl; rewrite ?mounted_update); exact M)
    | rewrite update_unmounted
        by (repeat (simpl; rewrite ?mounted_update); exact M) ]).


Ltac use_guards :=
  repeat match goal with
         | H : ?x = ?x -> _ |- _ => specialize (H eq_refl)
         | H : ?a = ?b -> _, H' : ?a = ?b |- _ => specialize (H H')
         end.

Ltac close_guards B1 :=
  unfold Guards, unanswered; simpl;
  rewrite ?pending_snoc by (exact B1); simpl;
  split; [first [exact B1 | apply bound_snoc; exact B1]|];
  repeat split; intros; use_guards; try congruence; try lia.

Lemma settled_Guards k r now w w' :
  Guards w -> settled k r now w = Some w' -> Guards w'.
Proof.
  intros G. unfold settled.
  destruct (sent w !! k) as [p|] eqn:E; [|discriminate].
  destruct (answered w !! k) eqn:N; [discriminate|]. cbv zeta.
  match goal with
  | |- match ?n with _ => _ end = _ -> _ =>
      destruct n as [w2|] eqn:X; [|discriminate]
  end.
  intros H. injection H as <-.
  destruct (DetailProps.commit_keeps w w2) as (C1 & C2 & C3 & C4 & _).
  apply (Guards_ext w2); auto using commit_id. clear C1 C2 C3 C4.
  destruct G as (B & R1 & R2 & E1 & E2 & V).
  unfold unanswered in *.
  pose proof (pending_answer is_retry _ _ _ r _ E N) as A1.
  pose proof (pending_answer is_export _ _ _ r _ E N) as A2.
  pose proof (pending_answer is_visible_load _ _ _ r _ E N) as A3.
  pose proof (bound_answer _ _ _ r _ E B) as B1.
  destruct (mounted w) eqn:M;
    destruct p as [[|]|d| | |rid notes], r; simpl in X; try discriminate;
    simpl in A1, A2, A3;
    expand_handlers;
    repeat match type of X with
           | context [match pollingInterval ?x with _ => _ end] =>
               destruct (pollingInterval x)
           end;
    injection X as <-; settle_updates M;
    close_guards B1.
Qed.


Ltac enabled_or_not :=
  match goal with
  | |- (if ?c then _ else _) = _ -> _ =>
      destruct c eqn:?; [|discriminate]
  end.

Lemma step_Guards e w w' : Guards w -> step e w = Some w' -> Guards w'.
Proof.
  intros G. destruct e; simpl; try (apply settled_Guards; exact G);
    destruct G as (B & R1 & R2 & E1 & E2 & V); unfold unanswered in *.
  - (* Tick *)
    destruct (timers w !! t); [|discriminate].
    intros H. injection H as <-. expand_handlers. close_guards B.
  - (* Unmount *)
    destruct (mounted w) eqn:M; [|discriminate].
    intros H. injection H as <-. unfold unmount.
    destruct (pollingInterval w); close_guards B.
  - (* ClickRetry *)
    unfold retry_button_enabled, body_shown.
    destruct (mounted w) eqn:M; simpl; [|discriminate].
    destruct (loading (view w)) eqn:Ld; simpl; [discriminate|].
    destruct (retrying (view w)) eqn:Rt;
      [rewrite andb_false_r; simpl; discriminate|].
    enabled_or_not. intros H. injection H as <-.
    expand_handlers. settle_updates M. close_guards B.
  - (* ClickDelete *)
    unfold body_shown.
    destruct (mounted w) eqn:M; simpl; [|discriminate].
    enabled_or_not. intros H. injection H as <-.
    destruct confirmed; expand_handlers; simpl; close_guards B.
  - (* ClickExport *)
    unfold body_shown.
    destruct (mounted w) eqn:M; simpl; [|discriminate].
    destruct (loading (view w)) eqn:Ld; simpl; [discriminate|].
    destruct (isExporting (view w)) eqn:Ex;
      [rewrite andb_false_r; discriminate|].
    enabled_or_not. intros H. injection H as <-.
    expand_handlers. destruct (document (view w));
      settle_updates M; close_guards B.
  - (* ClickResolveFlag *)
    unfold resolve_button_shown, body_shown.
    destruct (mounted w) eqn:M; simpl; [|discriminate].
    destruct (loading (view w)) eqn:Ld; simpl; [discriminate|].
    enabled_or_not. intros H. injection H as <-.
    expand_handlers. settle_updates M. close_guards B.
  - (* TypeNotes *)
    unfold dialog_shown, body_shown.
    destruct (mounted w) eqn:M; simpl; [|discriminate].
    destruct (loading (view w)) eqn:Ld; simpl; [discriminate|].
    enabled_or_not. intros H. injection H as <-.
    expand_handlers. settle_updates M. close_guards B.
  - (* ClickCancel *)
    unfold dialog_shown, body_shown.
    destruct (mounted w) eqn:M; simpl; [|discriminate].
    destruct (loading (view w)) eqn:Ld; simpl; [discriminate|].
    enabled_or_not. intros H. injection H as <-.
    expand_handlers. settle_updates M. close_guards B.
  - (* ClickConfirm *)
    unfold dialog_shown, body_shown.
    destruct (mounted w) eqn:M; simpl; [|discriminate].
    destruct (loading (view w)) eqn:Ld; simpl; [discriminate|].
    enabled_or_not. intros H. injection H as <-.
    expand_handlers.
    destruct (_ || _); [close_guards B|].
    destruct (resolvingId (view w)); close_guards B.
Qed.

Lemma Guards_init i : Guards (init i).
Proof.
  rewrite DetailProps.init_eq. unfold mountEffect, blank. simpl.
  assert (B : forall k : nat, is_Some ((∅ : gmap nat Reply) !! k)
                              -> (k < 0)%nat).
  { intros k [x H]. rewrite lookup_empty in H. discriminate. }
  destruct (truthy i) eqn:T.
  - unfold loadDocument, setLoading, update. simpl.
    unfold Guards, unanswered. simpl. rewrite lookup_empty.
    repeat split; intros; try lia; try reflexivity.
    match goal with H : is_Some _ |- _ => apply B in H; lia end.
  - unfold Guards, unanswered. simpl. rewrite T.
    repeat split; intros; try lia; try reflexivity; try discriminate.
    match goal with H : is_Some _ |- _ => apply B in H; lia end.
Qed.

Lemma run_Guards es : forall w w', Guards w -> run es w = Some w' ->
  Guards w'.
Proof.
  induction es as [|e es IH]; simpl; intros w w' I H.
  - injection H as <-. exact I.
  - destruct (step e w) as [w1|] eqn:E; [|discriminate].
    eapply IH; [|exact H]. eapply step_Guards; eassumption.
Qed.

Lemma reachable_Guards w : reachable w -> Guards w.
Proof. intros (i & es & H). eapply run_Guards; [apply Guards_init|exact H]. Qed.

Lemma pending_from_positive P n (l : list Pending) (ans : gmap nat Reply) :
  (0 < pending_from P n l ans)%nat ->
  exists j p, l !! j = Some p /\ P p = true /\ ans !! (n + j)%nat = None.
Proof.
  revert n. induction l as [|q l IH]; intros n; simpl; [lia|].
  destruct (P q) eqn:Pq, (ans !! n) eqn:A; simpl.
  - intros H. destruct (IH _ H) as (j & p & L & Pp & N).
    exists (S j), p. replace (n + S j)%nat with (S n + j)%nat by lia. auto.
  - intros _. exists 0%nat, q. rewrite Nat.add_0_r. auto.
  - intros H. destruct (IH _ H) as (j & p & L & Pp & N).
    exists (S j), p. replace (n + S j)%nat with (S n + j)%nat by lia. auto.
  - intros H. destruct (IH _ H) as (j & p & L & Pp & N).
    exists (S j), p. replace (n + S j)%nat with (S n + j)%nat by lia. auto.
Qed.

(** [retryDocument] calls never overlap, and neither do [getReport]
    calls: at most one of each is unanswered at any time, and none is
    while the button that starts it can be clicked. *)
Theorem retry_and_export_run_one_at_a_time (w : World) :
  reachable w ->
  (unanswered is_retry w <= 1)%nat /\
  (unanswered is_export w <= 1)%nat /\
  (retry_button_enabled w = true -> unanswered is_retry w = O) /\
  (body_shown w && negb (isExporting (view w)) = true ->
   unanswered is_export w = O).
Proof.
  intros R. destruct (reachable_Guards _ R) as (_ & R1 & R2 & E1 & E2 & _).
  split; [exact R1|]. split; [exact E1|]. split.
  - unfold retry_button_enabled, body_shown. intros H.
    destruct (mounted w); [|discriminate].
    destruct (retrying (view w)); [|auto].
    rewrite andb_false_r in H. discriminate.
  - unfold body_shown. intros H.
    destruct (mounted w); [|discriminate].
    destruct (isExporting (view w)); [|auto].
    rewrite andb_false_r in H. discriminate.
Qed.

(** On a page with a route id, the loading screen is up only while a
    [loadDocument(true)] fetch is unanswered: its reply, success or
    failure, will take the screen down. *)
Theorem loading_screen_awaits_a_fetch (w : World) :
  reachable w ->
  mounted w = true -> truthy (id w) = true -> loading (view w) = true ->
  exists k, sent w !! k = Some (Await_loadDocument true) /\
            answered w !! k = None.
Proof.
  intros R M I L. destruct (reachable_Guards _ R) as (_ & _ & _ & _ & _ & V).
  destruct (pending_from_positive _ _ _ _ (V M I L)) as (j & p & Lk & P & N).
  exists j. split; [|exact N].
  destruct p as [[|]| | | |]; try discriminate. exact Lk.
Qed.

Lemma retry_and_export_run_one_at_a_time_witness :
  let w := default (blank [])
             (run [Settle 0 (DocumentOk (DetailScenarios.doc "q3.pdf" FAILED))
                          DetailScenarios.noon;
                   ClickRetry; ClickExport]
                  (init DetailScenarios.route)) in
  unanswered is_retry w = 1%nat /\ unanswered is_export w = 1%nat /\
  retry_button_enabled w = false /\
  (unanswered is_retry w <= 1)%nat /\ (unanswered is_export w <= 1)%nat.
Proof.
  intros w. split; [vm_compute; reflexivity|].
  split; [vm_compute; reflexivity|]. split; [vm_compute; reflexivity|].
  destruct (retry_and_export_run_one_at_a_time w) as (H1 & H2 & _).
  - exists DetailScenarios.route,
      [Settle 0 (DocumentOk (DetailScenarios.doc "q3.pdf" FAILED))
              DetailScenarios.noon; ClickRetry; ClickExport].
    vm_compute. reflexivity.
  - split; assumption.
Defined.

Lemma loading_screen_awaits_a_fetch_witness :
  exists k, sent (init DetailScenarios.route) !! k
            = Some (Await_loadDocument true) /\
            answered (init DetailScenarios.route) !! k = None.
Proof.
  apply (loading_screen_awaits_a_fetch (init DetailScenarios.route)).
  - exists DetailScenarios.route, []. reflexivity.
  - reflexivity.
  - reflexivity.
  - reflexivity.
Defined.

End DetailMoreProps.

(** ** The handlers of the detail page, one by one *)

Module DetailOutcomes.
Import DetailPage DetailMore.

(** In every state the page can reach at most one interval is armed: the
    one the ref holds, with a period of 3000 ms; none is armed once the
    component is unmounted; and while the "analysis in progress" bar is
    on screen and no fetch has failed, one is armed. *)
Theorem poller_has_at_most_one_timer (w : World) :
  reachable w ->
  (timers w = ∅ \/
   exists t, pollingInterval w = Some t /\ timers w = {[t := 3000]}) /\
  (mounted w = false -> timers w = ∅) /\
  (banner_shown w = true -> fetch_failed w = false ->
   exists t, pollingInterval w = Some t /\ timers w = {[t := 3000]}).
Proof.
  intros R. destruct (DetailProps.reachable_Inv _ R) as (I1 & I2 & I3 & I4).
  split; [|split; [exact I2|]].
  - pose proof (DetailProps.timers_empty_of_null_ref w I1) as HB.
    destruct (pollingInterval w) as [t|] eqn:P.
    + assert (O : forall i, i <> t -> timers w !! i = None).
      { intros i Ne. destruct (timers w !! i) as [p|] eqn:L; [|reflexivity].
        destruct (I1 _ _ L) as [E _]. congruence. }
      destruct (timers w !! t) as [p|] eqn:L.
      * right. exists t. split; [reflexivity|].
        destruct (I1 _ _ L) as [_ ->]. apply map_eq. intros i.
        destruct (decide (i = t)) as [->|Ne].
        -- rewrite lookup_singleton_eq. exact L.
        -- rewrite lookup_singleton_ne by congruence. apply O. exact Ne.
      * left. apply map_empty. intros i.
        destruct (decide (i = t)) as [->|Ne]; [exact L|apply O; exact Ne].
    + left. apply HB. reflexivity.
  - unfold banner_shown, body_shown. intros B F.
    destruct (mounted w); [|discriminate]. apply I4; auto.
    unfold idle_status. destruct (status_of w) as [s|].
    + destruct (non_terminal s); [reflexivity|].
      rewrite andb_false_r in B. discriminate.
    + rewrite andb_false_r in B. discriminate.
Qed.

Ltac open_reply L :=
  simpl; unfold settled; rewrite L;
  match goal with
  | |- context [answered ?w !! ?k] =>
      let A := fresh "A" in
      destruct (answered w !! k) eqn:A; [discriminate|]
  end;
  cbv zeta;
  match goal with
  | |- match ?n with _ => _ end = _ -> _ =>
      let E := fresh "E" in
      let H := fresh "H" in
      destruct n as [?w2|] eqn:E; [|discriminate];
      intros H; injection H as <-
  end.

(** A reply to [retryDocument] touches neither the timer nor the
    document shown and re-enables the Retry button.  On success the page
    issues one [loadDocument(true)] fetch and shows the loading screen; on
    failure it shows the message of the error and fetches nothing. *)
Theorem retry_refetches_only_on_success (w w' : World) (k : nat)
  (r : Reply) (now : Date) :
  sent w !! k = Some Await_handleRetry ->
  mounted w = true ->
  step (Settle k r now) w = Some w' ->
  timers w' = timers w /\ pollingInterval w' = pollingInterval w /\
  document (view w') = document (view w) /\
  retrying (view w') = false /\
  match r with
  | VoidOk =>
      sent w' = sent w ++ [Await_loadDocument true] /\
      loading (view w') = true /\ error (view w') = error (view w)
  | Failed e =>
      sent w' = sent w /\ error (view w') = message e /\
      loading (view w') = loading (view w)
  | _ => False
  end.
Proof.
  intros L M. open_reply L.
  rewrite DetailProps.commit_frame.
  2:{ eapply DetailProps.frame_trans;
        [apply DetailProps.mark_frame; exact A|].
      eapply DetailProps.handleRetry_settled_frame. exact E. }
  destruct r; simpl in E; try discriminate; injection E as <-;
    DetailMoreProps.expand_handlers; DetailMoreProps.settle_updates M;
    simpl; repeat split.
Qed.

(** A reply to [getReport] issues no call, touches neither the timer nor
    the document shown, and re-enables the export button.  On success the
    reply is downloaded as it came, under a name built from the document
    the button was clicked on; on failure nothing is downloaded and the
    error text, never empty, replaces the page body. *)
Theorem export_changes_nothing_but_the_download (w w' : World) (k : nat)
  (d : DocumentDetail) (r : Reply) (now : Date) :
  sent w !! k = Some (Await_handleExportReport d) ->
  mounted w = true ->
  step (Settle k r now) w = Some w' ->
  sent w' = sent w /\
  timers w' = timers w /\ pollingInterval w' = pollingInterval w /\
  document (view w') = document (view w) /\
  isExporting (view w') = false /\
  match r with
  | ReportOk json =>
      trace w' = trace w ++ [Download (export_filename d now) json] /\
      error (view w') = error (view w)
  | Failed e =>
      trace w' = trace w
                 ++ [SetError (lit "Failed to generate audit report: "
                               ++ message e)] /\
      error (view w') = lit "Failed to generate audit report: "
                        ++ message e /\
      body_shown w' = false
  | _ => False
  end.
Proof.
  intros L M. open_reply L.
  rewrite DetailProps.commit_frame.
  2:{ eapply DetailProps.frame_trans;
        [apply DetailProps.mark_frame; exact A|].
      eapply DetailProps.handleExportReport_settled_frame. exact E. }
  destruct r; simpl in E; try discriminate; injection E as <-;
    DetailMoreProps.expand_handlers; DetailMoreProps.settle_updates M;
    simpl; repeat split.
  unfold body_shown. simpl. rewrite !andb_false_r. reflexivity.
Qed.

(** A successful [resolveAlert] closes the dialog, empties the notes and
    issues one silent re-fetch ([loadDocument(false)], no loading screen).
    A failed one keeps the flag selected and the notes as typed and
    fetches nothing; its error text, never empty, replaces the page body,
    dialog included. *)
Theorem resolve_reply_closes_dialog_or_hides_it (w w' : World) (k : nat)
  (rid notes : jsstring) (r : Reply) (now : Date) :
  sent w !! k = Some (Await_handleResolveAlert rid notes) ->
  mounted w = true ->
  step (Settle k r now) w = Some w' ->
  match r with
  | VoidOk =>
      resolvingId (view w') = None /\ resolutionNotes (view w') = [] /\
      sent w' = sent w ++ [Await_loadDocument false] /\
      loading (view w') = loading (view w) /\
      error (view w') = error (view w)
  | Failed e =>
      resolvingId (view w') = resolvingId (view w) /\
      resolutionNotes (view w') = resolutionNotes (view w) /\
      sent w' = sent w /\
      error (view w') = lit "Failed to resolve alert: " ++ message e /\
      dialog_shown w' = false
  | _ => False
  end.
Proof.
  intros L M. open_reply L.
  rewrite DetailProps.commit_frame.
  2:{ eapply DetailProps.frame_trans;
        [apply DetailProps.mark_frame; exact A|].
      eapply DetailProps.handleResolveAlert_settled_frame. exact E. }
  destruct r; simpl in E; try discriminate; injection E as <-;
    DetailMoreProps.expand_handlers; DetailMoreProps.settle_updates M;
    simpl; repeat split.
  unfold dialog_shown, body_shown. simpl. rewrite !andb_false_r. reflexivity.
Qed.

(** The confirm button of the resolve dialog is not disabled while its
    call is in flight: whenever a click on it is accepted, a second click
    is accepted too and issues the same [resolveAlert] call again. *)
Theorem confirm_can_be_clicked_twice (w w1 : World) :
  step ClickConfirm w = Some w1 ->
  exists rid w2,
    resolvingId (view w) = Some rid /\
    sent w1 = sent w
              ++ [Await_handleResolveAlert rid (resolutionNotes (view w))] /\
    step ClickConfirm w1 = Some w2 /\
    sent w2 = sent w
              ++ [Await_handleResolveAlert rid (resolutionNotes (view w));
                  Await_handleResolveAlert rid (resolutionNotes (view w))].
Proof.
  simpl. destruct (dialog_shown w && negb (confirm_disabled w)) eqn:G;
    [|discriminate].
  intros H. injection H as <-.
  apply andb_true_iff in G as [D C].
  pose proof D as D'. unfold dialog_shown in D'.
  apply andb_true_iff in D' as [_ T].
  destruct (resolvingId (view w)) as [rid|] eqn:R; [|discriminate].
  unfold confirm_disabled in C. apply negb_true_iff, negb_false_iff in C.
  assert (E : handleResolveAlert w
              = send (Await_handleResolveAlert rid (resolutionNotes (view w)))
                     w).
  { unfold handleResolveAlert. rewrite R. simpl in *. rewrite T, C.
    reflexivity. }
  rewrite E.
  set (w1 := send (Await_handleResolveAlert rid (resolutionNotes (view w))) w).
  assert (E1 : handleResolveAlert w1
               = send (Await_handleResolveAlert rid
                         (resolutionNotes (view w))) w1).
  { unfold handleResolveAlert. simpl. rewrite R. simpl in *. rewrite T, C.
    reflexivity. }
  exists rid, (handleResolveAlert w1). split; [reflexivity|].
  split; [reflexivity|]. split.
  - assert (G1 : dialog_shown w1 && negb (confirm_disabled w1) = true).
    { change (dialog_shown w1) with (dialog_shown w). rewrite D.
      unfold confirm_disabled. simpl. rewrite C. reflexivity. }
    rewrite G1. reflexivity.
  - rewrite E1. simpl. rewrite <- app_assoc. reflexivity.
Qed.

(** Nor is the Delete button: whenever a confirmed delete is accepted, a
    second confirmed delete is accepted while the first is in flight and
    issues a second [deleteDocument] call. *)
Theorem delete_can_be_clicked_twice (w w1 : World) :
  step (ClickDelete true) w = Some w1 ->
  exists w2,
    step (ClickDelete true) w1 = Some w2 /\
    sent w2 = sent w ++ [Await_handleDelete; Await_handleDelete].
Proof.
  simpl. destruct (body_shown w) eqn:B; [|discriminate].
  intros H. injection H as <-.
  assert (B1 : body_shown (handleDelete true w) = true) by exact B.
  rewrite B1. eexists. split; [reflexivity|].
  simpl. rewrite <- app_assoc. reflexivity.
Qed.

Lemma poller_has_at_most_one_timer_witness :
  let w := default (blank [])
             (run (DetailScenarios.polling ++ [Tick 1; Tick 1])
                  (init DetailScenarios.route)) in
  banner_shown w = true /\
  exists t, pollingInterval w = Some t /\ timers w = {[t := 3000]}.
Proof.
  intros w. split; [vm_compute; reflexivity|].
  destruct (poller_has_at_most_one_timer w) as (_ & _ & H).
  - exists DetailScenarios.route, (DetailScenarios.polling ++ [Tick 1; Tick 1]).
    vm_compute. reflexivity.
  - apply H; vm_compute; reflexivity.
Defined.

Lemma retry_refetches_only_on_success_witness :
  let w := default (blank [])
             (run [Settle 0 (DocumentOk (DetailScenarios.doc "q3.pdf" FAILED))
                          DetailScenarios.noon; ClickRetry]
                  (init DetailScenarios.route)) in
  let w' := default (blank [])
              (step (Settle 1 VoidOk DetailScenarios.noon) w) in
  retrying (view w) = true /\ retrying (view w') = false /\
  sent w' = sent w ++ [Await_loadDocument true] /\
  loading (view w') = true.
Proof.
  intros w w'. split; [vm_compute; reflexivity|].
  destruct (retry_refetches_only_on_success w w' 1 VoidOk
              DetailScenarios.noon) as (_ & _ & _ & H4 & H5 & H6 & _).
  - vm_compute. reflexivity.
  - vm_compute. reflexivity.
  - vm_compute. reflexivity.
  - repeat split; assumption.
Defined.

Lemma export_changes_nothing_but_the_download_witness :
  let d := DetailScenarios.doc "Q3.report.pdf" COMPLETED in
  let w := default (blank [])
             (run (DetailScenarios.loaded ++ [ClickExport])
                  (init DetailScenarios.route)) in
  let w' := default (blank [])
              (step (Settle 1 (Failed Scenarios.timeout) DetailScenarios.noon)
                    w) in
  document (view w') = document (view w) /\
  isExporting (view w') = false /\ body_shown w' = false.
Proof.
  intros d w w'.
  destruct (export_changes_nothing_but_the_download w w' 1 d
              (Failed Scenarios.timeout) DetailScenarios.noon)
    as (_ & _ & _ & H4 & H5 & _ & _ & H8).
  - vm_compute. reflexivity.
  - vm_compute. reflexivity.
  - vm_compute. reflexivity.
  - repeat split; assumption.
Defined.

Lemma resolve_reply_closes_dialog_or_hides_it_witness :
  let w := default (blank [])
             (run (DetailScenarios.loaded
                   ++ [ClickResolveFlag (lit "rf1"); TypeNotes (lit "seen");
                       ClickConfirm])
                  (init DetailScenarios.route)) in
  let w' := default (blank [])
              (step (Settle 1 VoidOk DetailScenarios.noon) w) in
  resolvingId (view w) = Some (lit "rf1") /\
  resolvingId (view w') = None /\ resolutionNotes (view w') = [] /\
  sent w' = sent w ++ [Await_loadDocument false].
Proof.
  intros w w'. split; [vm_compute; reflexivity|].
  destruct (resolve_reply_closes_dialog_or_hides_it w w' 1 (lit "rf1")
              (lit "seen") VoidOk DetailScenarios.noon)
    as (H1 & H2 & H3 & _).
  - vm_compute. reflexivity.
  - vm_compute. reflexivity.
  - vm_compute. reflexivity.
  - repeat split; assumption.
Defined.

Lemma confirm_can_be_clicked_twice_witness :
  let w := default (blank [])
             (run (DetailScenarios.loaded
                   ++ [ClickResolveFlag (lit "rf1"); TypeNotes (lit "seen")])
                  (init DetailScenarios.route)) in
  let w1 := default (blank []) (step ClickConfirm w) in
  exists rid w2,
    resolvingId (view w) = Some rid /\
    sent w1 = sent w
              ++ [Await_handleResolveAlert rid (resolutionNotes (view w))] /\
    step ClickConfirm w1 = Some w2 /\
    sent w2 = sent w
              ++ [Await_handleResolveAlert rid (resolutionNotes (view w));
                  Await_handleResolveAlert rid (resolutionNotes (view w))].
Proof.
  intros w w1. apply (confirm_can_be_clicked_twice w w1).
  vm_compute. reflexivity.
Defined.

Lemma delete_can_be_clicked_twice_witness :
  let w := default (blank [])
             (run DetailScenarios.loaded (init DetailScenarios.route)) in
  let w1 := default (blank []) (step (ClickDelete true) w) in
  exists w2,
    step (ClickDelete true) w1 = Some w2 /\
    sent w2 = sent w ++ [Await_handleDelete; Await_handleDelete].
Proof.
  intros w w1. apply (delete_can_be_clicked_twice w w1).
  vm_compute. reflexivity.
Defined.

End DetailOutcomes.

(** ** The error view and the page without a route id *)

Module DetailViews.
Import DetailPage DetailMore.

Lemma step_error_stays e w w' :
  truthy (error (view w)) = true ->
  (forall k x now, e = Settle k (Failed x) now ->
                   truthy (message x) = true) ->
  step e w = Some w' ->
  truthy (error (view w')) = true /\ is_click e = false.
Proof.
  intros T F.
  assert (B : body_shown w = false).
  { unfold body_shown. rewrite T. simpl. rewrite andb_false_r. reflexivity. }
  destruct e; simpl;
    unfold retry_button_enabled, resolve_button_shown, dialog_shown;
    rewrite ?B; simpl; try discriminate.
  - destruct (timers w !! t); [|discriminate].
    intros H. injection H as <-. unfold loadDocument. simpl. auto.
  - unfold settled.
    destruct (sent w !! k) as [p|] eqn:E; [|discriminate].
    destruct (answered w !! k) eqn:N; [discriminate|]. cbv zeta.
    match goal with
    | |- match ?n with _ => _ end = _ -> _ =>
        destruct n as [w2|] eqn:X; [|discriminate]
    end.
    intros H. injection H as <-. split; [|reflexivity].
    destruct (DetailProps.commit_keeps w w2) as (-> & _).
    assert (Fm : forall x, r = Failed x -> truthy (message x) = true).
    { intros x ->. apply (F k x now). reflexivity. }
    clear F.
    destruct (mounted w) eqn:M;
      destruct p as [sl|d| | |rid notes], r; simpl in X; try discriminate;
      DetailMoreProps.expand_handlers;
      repeat match type of X with
             | context [match pollingInterval ?x with _ => _ end] =>
                 destruct (pollingInterval x)
             end;
      try destruct sl;
      injection X as <-; DetailMoreProps.settle_updates M; simpl;
      try exact T; try (apply Fm; reflexivity); reflexivity.
  - destruct (mounted w); [|discriminate].
    intros H. injection H as <-. unfold unmount.
    destruct (pollingInterval w); simpl; auto.
Qed.

(** The error view is final.  Once an error text is on screen, no button
    of the page can be clicked again, and, as long as the errors of the
    service carry a message, the text never goes away: only replies, timer
    ticks and the unmount can still happen. *)
Theorem error_view_is_final (es : list Event) (w w' : World) :
  truthy (error (view w)) = true ->
  Forall (fun e => forall k x now, e = Settle k (Failed x) now ->
                                   truthy (message x) = true) es ->
  run es w = Some w' ->
  truthy (error (view w')) = true /\
  Forall (fun e => is_click e = false) es.
Proof.
  revert w. induction es as [|e es IH]; simpl; intros w T F H.
  - injection H as <-. split; [exact T|constructor].
  - destruct (step e w) as [w1|] eqn:E; [|discriminate].
    apply Forall_cons in F as [F1 F2].
    destruct (step_error_stays _ _ _ T F1 E) as [T1 C].
    destruct (IH _ T1 F2 H) as [T' Cs]. split; [exact T'|].
    constructor; assumption.
Qed.

(** Without a route id the page fetches nothing: it stays on the loading
    screen with no call made, no timer armed and nothing done to the
    outside, and the only thing that can happen to it is the unmount. *)
Theorem empty_route_id_fetches_nothing (es : list Event) (w : World) :
  run es (init []) = Some w ->
  sent w = [] /\ trace w = [] /\ timers w = ∅ /\
  loading (view w) = true /\ document (view w) = None /\
  Forall (fun e => e = Unmount) es.
Proof.
  assert (G : forall evs s s',
    sent s = [] /\ trace s = [] /\ timers s = ∅ /\
    pollingInterval s = None /\ loading (view s) = true /\
    document (view s) = None ->
    run evs s = Some s' ->
    (sent s' = [] /\ trace s' = [] /\ timers s' = ∅ /\
     pollingInterval s' = None /\ loading (view s') = true /\
     document (view s') = None) /\
    Forall (fun e => e = Unmount) evs).
  { intros evs. induction evs as [|e evs IH]; simpl; intros s s' I H.
    - injection H as <-. split; [exact I|constructor].
    - destruct (step e s) as [s1|] eqn:E; [|discriminate].
      destruct I as (S & Tr & Ti & P & L & D).
      assert (B : body_shown s = false).
      { unfold body_shown. rewrite L. simpl. rewrite andb_false_r.
        reflexivity. }
      assert (e = Unmount /\ s1 = unmount s) as [-> ->].
      { destruct e; simpl in E;
          unfold retry_button_enabled, resolve_button_shown, dialog_shown,
                 settled in E;
          rewrite ?B, ?S, ?Ti in E; simpl in E; try discriminate;
          try (rewrite lookup_empty in E; discriminate).
        destruct (mounted s); [|discriminate].
        injection E as <-. split; reflexivity. }
      destruct (IH (unmount s) s') as [I' Fa]; [|exact H|].
      + unfold unmount. rewrite P. simpl. repeat split; assumption.
      + split; [exact I'|]. constructor; [reflexivity|exact Fa]. }
  intros H. destruct (G es (init []) w) as [(S & Tr & Ti & _ & L & D) Fa];
    [|exact H|].
  - vm_compute. repeat split.
  - repeat split; assumption.
Qed.

Lemma error_view_is_final_witness :
  let w := default (blank [])
             (run DetailScenarios.poll_fails (init DetailScenarios.route)) in
  let es := [Settle 2 (DocumentOk (DetailScenarios.doc "q3.pdf" COMPLETED))
                    DetailScenarios.noon; Unmount] in
  let w' := default (blank []) (run es w) in
  error (view w) = lit "Network timeout" /\
  truthy (error (view w')) = true /\
  Forall (fun e => is_click e = false) es.
Proof.
  intros w es w'. split; [vm_compute; reflexivity|].
  apply (error_view_is_final es w w').
  - vm_compute. reflexivity.
  - repeat constructor; intros k x now H; discriminate H.
  - vm_compute. reflexivity.
Defined.

Lemma empty_route_id_fetches_nothing_witness :
  let w := default (blank []) (run [Unmount] (init [])) in
  mounted w = false /\
  sent w = [] /\ trace w = [] /\ timers w = ∅ /\
  loading (view w) = true /\ document (view w) = None /\
  Forall (fun e => e = Unmount) [Unmount].
Proof.
  intros w. split; [vm_compute; reflexivity|].
  apply (empty_route_id_fetches_nothing [Unmount] w).
  vm_compute. reflexivity.
Defined.

End DetailViews.
